(** * Speaker resolution: a model of [speaker_resolver.py] and its properties

    The development follows the module function by function: the transcript
    line grammar and [parse_utterances], [summarize_observed_speakers], the
    three roster loaders, [merge_known_speakers], the prompt builder and the
    resolver, and [resolve_speakers_from_files].

    Modelling conventions.
    - Python text is a [string]; the character classes ([str.isspace], the
      regular expression classes, [lower], [upper]) are those of ASCII text.
      They are Python's on the characters with a code below 128; a statement
      that compares them with a grammar written down separately is made for
      ASCII text.
    - The text of a file is the text as a reader in text mode receives it,
      decoded and with its line endings translated; [universal_newlines] is
      that translation of the text written.
    - A Python value decoded from JSON is a [value]; a [dict] is an association
      list in insertion order, which is the order Python iterates it in.
    - A call that can raise returns a [result]; an exception leaves through
      [Raise] unless the source catches it.
    - What lies outside the repository (the [json] module, the file system,
      the inference client, [repr]) is a field of the environment [Env]. *)

From Stdlib Require Import List String Ascii Bool Arith ZArith Lia PrimFloat.
Import ListNotations.
Local Open Scope string_scope.
Local Open Scope list_scope.
Local Open Scope nat_scope.

Set Implicit Arguments.
Set Warnings "-register-all".

(* ================================================================== *)
(** * Part I. The model                                                 *)
(* ================================================================== *)

(** ** Exceptions and fallible calls *)

Inductive exn : Type :=
| FileNotFoundError
| JSONDecodeError
| AttributeError
| TypeError
| ServiceError (msg : string).

Inductive result (A : Type) : Type :=
| Ok (a : A)
| Raise (e : exn).
Arguments Ok {A} a.
Arguments Raise {A} e.

Definition bind {A B : Type} (m : result A) (f : A -> result B) : result B :=
  match m with
  | Ok a => f a
  | Raise e => Raise e
  end.

Notation "x <- m ;; k" := (bind m (fun x => k))
  (at level 61, m at next level, right associativity).

(** ** Text *)

Definition nl : string := String "010"%char "".
Definition dq : string := String "034"%char "".

Definition code (c : ascii) : nat := nat_of_ascii c.

Definition between (lo hi : nat) (c : ascii) : bool :=
  (lo <=? code c) && (code c <=? hi).

(** [str.isspace] and the class [\s]: tab, LF, VT, FF, CR, FS..US, space. *)
Definition is_space (c : ascii) : bool :=
  between 9 13 c || between 28 31 c || (code c =? 32).

(** The class [\d]. *)
Definition is_digit (c : ascii) : bool := between 48 57 c.

(** The class [[A-Z]]. *)
Definition is_upper (c : ascii) : bool := between 65 90 c.

Definition is_lower (c : ascii) : bool := between 97 122 c.

(** The class [.]: anything but a line feed. *)
Definition not_newline (c : ascii) : bool := negb (code c =? 10).

Definition lower_char (c : ascii) : ascii :=
  if is_upper c then ascii_of_nat (code c + 32) else c.

Definition upper_char (c : ascii) : ascii :=
  if is_lower c then ascii_of_nat (code c - 32) else c.

Fixpoint map_string (f : ascii -> ascii) (s : string) : string :=
  match s with
  | EmptyString => EmptyString
  | String c s' => String (f c) (map_string f s')
  end.

Definition lower : string -> string := map_string lower_char.
Definition upper : string -> string := map_string upper_char.

Fixpoint drop_while (p : ascii -> bool) (s : string) : string :=
  match s with
  | EmptyString => EmptyString
  | String c s' => if p c then drop_while p s' else s
  end.

Fixpoint all_chars (p : ascii -> bool) (s : string) : bool :=
  match s with
  | EmptyString => true
  | String c s' => p c && all_chars p s'
  end.

Definition rev_string (s : string) : string :=
  string_of_list_ascii (rev (list_ascii_of_string s)).

Definition lstrip_chars (p : ascii -> bool) (s : string) : string := drop_while p s.
Definition rstrip_chars (p : ascii -> bool) (s : string) : string :=
  rev_string (drop_while p (rev_string s)).

(** [s.strip()] *)
Definition strip (s : string) : string :=
  rstrip_chars is_space (lstrip_chars is_space s).

(** [s.rstrip("\n")] *)
Definition rstrip_newline (s : string) : string :=
  rstrip_chars (fun c => code c =? 10) s.

(** [s[:n]] for a count [n] that is not negative. *)
Definition prefix (n : nat) (s : string) : string := substring 0 n s.

(** [sep.join(parts)] *)
Definition join (sep : string) (parts : list string) : string := String.concat sep parts.

(** The lines of a text file as iteration over the file yields them: each ends
    with its line feed, the last one possibly without. *)
Fixpoint file_lines_from (cur : string) (s : string) : list string :=
  match s with
  | EmptyString => if (cur =? "")%string then [] else [rev_string cur]
  | String c s' =>
      if code c =? 10 then rev_string (String c cur) :: file_lines_from "" s'
      else file_lines_from (String c cur) s'
  end.

Definition file_lines (s : string) : list string := file_lines_from "" s.

(** Reading in text mode: a carriage return, alone or followed by a line
    feed, arrives as one line feed. [after_cr] tells that the character
    before was a carriage return. *)
Fixpoint translate_newlines (after_cr : bool) (s : string) : string :=
  match s with
  | EmptyString => EmptyString
  | String c rest =>
      if code c =? 13 then String "010"%char (translate_newlines true rest)
      else if (code c =? 10) && after_cr then translate_newlines false rest
      else String c (translate_newlines false rest)
  end.

(** The text a reader in text mode receives from a file in which [s] was
    written. *)
Definition universal_newlines (s : string) : string :=
  translate_newlines false s.

(** ** Values *)

Inductive value : Type :=
| VNone
| VBool (b : bool)
| VInt (n : Z)
| VFloat (f : float)
| VStr (s : string)
| VList (l : list value)
| VDict (d : list (string * value)).

(** A [dict] with string keys. *)
Definition dict : Type := list (string * value).

(** Python's truth value of an object. *)
Definition truthy (v : value) : bool :=
  match v with
  | VNone => false
  | VBool b => b
  | VInt n => negb (n =? 0)%Z
  | VFloat f => negb (PrimFloat.eqb f PrimFloat.zero)
  | VStr s => negb (s =? "")%string
  | VList l => match l with [] => false | _ => true end
  | VDict d => match d with [] => false | _ => true end
  end.

Section Dicts.
Variable V : Type.

(** [d[k]] when present. *)
Fixpoint lookup (k : string) (d : list (string * V)) : option V :=
  match d with
  | [] => None
  | (k', v) :: d' => if (k =? k')%string then Some v else lookup k d'
  end.

(** [k in d] *)
Definition contains (k : string) (d : list (string * V)) : bool :=
  match lookup k d with Some _ => true | None => false end.

(** [d[k] = v]: the value is replaced where the key stands, a new key goes
    last. *)
Fixpoint assign (k : string) (v : V) (d : list (string * V)) : list (string * V) :=
  match d with
  | [] => [(k, v)]
  | (k', v') :: d' =>
      if (k =? k')%string then (k', v) :: d' else (k', v') :: assign k v d'
  end.

(** [list(d.values())] *)
Definition values (d : list (string * V)) : list V := map snd d.

Definition keys (d : list (string * V)) : list string := map fst d.
End Dicts.

(** [d.get(k)] *)
Definition get (k : string) (d : dict) : value :=
  match lookup k d with Some v => v | None => VNone end.

(** [d.setdefault(k, v)] as a statement. *)
Definition setdefault (k : string) (v : value) (d : dict) : dict :=
  if contains k d then d else assign k v d.

(** [x or y] *)
Definition or_else (x y : value) : value := if truthy x then x else y.

(** A Python [dict] never holds a key twice. *)
Definition dict_wf (d : dict) : Prop := NoDup (keys d).

(** ** The environment *)

(** A message of the inference request. *)
Record message : Type := { role : string; content : string }.

(** The keyword arguments of [client.responses.create]. *)
Record request : Type := {
  req_model : string;
  req_reasoning : dict;
  req_input : list message
}.

(** An object of the client library, seen through its attributes. *)
Inductive pyobj : Type :=
| ONone
| OStr (s : string)
| OList (l : list pyobj)
| OObj (attrs : list (string * pyobj)).

Record Env : Type := {
  (** [repr] of a value that is not a string, as an f-string renders it *)
  py_repr : value -> string;
  (** [json.loads]; [None] is a [json.JSONDecodeError] *)
  json_loads : string -> option value;
  (** [json.dumps(v, ensure_ascii=False, indent=2)] *)
  json_dumps : value -> string;
  (** the text of the file at a path as a reader in text mode receives it,
      decoded and with every line ending a line feed; [None] when there is no
      file *)
  files : string -> option string;
  (** building the client and calling [client.responses.create]: the
      response object, or the exception either of them raises *)
  responses_create : request -> result pyobj
}.

(** [f"{v}"] *)
Definition format_value (env : Env) (v : value) : string :=
  match v with
  | VStr s => s
  | _ => py_repr env v
  end.

(** [Path(path).open("r")] followed by reading the text. *)
Definition open_read (env : Env) (path : string) : result string :=
  match files env path with
  | Some text => Ok text
  | None => Raise FileNotFoundError
  end.

(** ** Regular expressions

    The fragment of Python's [re] that [SPEAKER_LINE_RE] is written in, with a
    backtracking matcher in continuation-passing style: quantifiers are
    greedy, and a named group records the text it consumed. *)

Inductive regex : Type :=
| Bol                                  (** [^] *)
| Eol                                  (** [$] *)
| Str (lit : string)                   (** literal text *)
| Class (p : ascii -> bool)            (** one character of a class *)
| Rep (n : nat) (p : ascii -> bool)    (** [p{n}] *)
| Star (p : ascii -> bool)             (** [p*] *)
| Plus (p : ascii -> bool)             (** [p+] *)
| Cat (r1 r2 : regex)
| Group (name : string) (r : regex).   (** [(?P<name>r)] *)

Definition captures : Type := list (string * string).
Definition cont : Type := string -> captures -> option captures.

Fixpoint str_go (lit : string) (k : cont) (s : string) (caps : captures)
  : option captures :=
  match lit with
  | EmptyString => k s caps
  | String a lit' =>
      match s with
      | String c s' => if Ascii.eqb a c then str_go lit' k s' caps else None
      | EmptyString => None
      end
  end.

Fixpoint rep_go (n : nat) (p : ascii -> bool) (k : cont) (s : string)
  (caps : captures) : option captures :=
  match n with
  | 0 => k s caps
  | S n' =>
      match s with
      | String c s' => if p c then rep_go n' p k s' caps else None
      | EmptyString => None
      end
  end.

(** Greedy: the longest run first, then one character less each time the
    rest of the pattern fails. *)
Fixpoint star_go (p : ascii -> bool) (k : cont) (s : string) (caps : captures)
  : option captures :=
  match s with
  | String c s' =>
      if p c then
        match star_go p k s' caps with
        | Some m => Some m
        | None => k s caps
        end
      else k s caps
  | EmptyString => k s caps
  end.

Fixpoint re_go (whole : string) (r : regex) (k : cont) (s : string)
  (caps : captures) : option captures :=
  match r with
  | Bol => if String.length s =? String.length whole then k s caps else None
  | Eol => if (s =? "")%string || (s =? nl)%string then k s caps else None
  | Str lit => str_go lit k s caps
  | Class p => rep_go 1 p k s caps
  | Rep n p => rep_go n p k s caps
  | Star p => star_go p k s caps
  | Plus p => rep_go 1 p (star_go p k) s caps
  | Cat r1 r2 => re_go whole r1 (re_go whole r2 k) s caps
  | Group name r =>
      re_go whole r
        (fun s' caps' =>
           let from := String.length whole - String.length s in
           let len := String.length s - String.length s' in
           k s' (assign name (substring from len whole) caps'))
        s caps
  end.

(** [r.match(s)]: anchored at the start of [s], not at its end. *)
Definition re_match (r : regex) (s : string) : option captures :=
  re_go s r (fun _ caps => Some caps) s [].

(** [m.group(name)] *)
Definition group (name : string) (m : captures) : string :=
  match lookup name m with Some s => s | None => "" end.

Declare Scope regex_scope.
Delimit Scope regex_scope with re.
Infix ">>" := Cat (at level 60, right associativity) : regex_scope.

(** [\d{2}:\d{2}:\d{2}] *)
Definition hms : regex :=
  (Rep 2 is_digit >> Str ":" >> Rep 2 is_digit >> Str ":" >> Rep 2 is_digit)%re.

Definition SPEAKER_LINE_RE : regex :=
  (Bol >> Str "[" >> Group "start" hms >> Star is_space >> Str "-" >> Star is_space
   >> Group "end" hms >> Str "]" >> Plus is_space
   >> Group "label" (Str "SPEAKER_" >> Class is_upper) >> Str ":" >> Star is_space
   >> Group "text" (Star not_newline) >> Eol)%re.

(** ** Utterances *)

Record Utterance : Type := {
  index : nat;
  start_time : string;
  end_time : string;
  speaker_label : string;
  text : string;
  previous_speaker_label : option string
}.

Definition read_transcript_head (env : Env) (transcript_path : string)
  (max_lines : Z) : result (list string) :=
  text <- open_read env transcript_path ;;
  Ok (map rstrip_newline (firstn (Z.to_nat max_lines) (file_lines text))).

(** The loop of [parse_utterances], with its two counters [idx] and
    [last_label] as arguments. *)
Fixpoint parse_from (idx : nat) (last_label : option string)
  (lines : list string) : list Utterance :=
  match lines with
  | [] => []
  | line :: rest =>
      match re_match SPEAKER_LINE_RE line with
      | None => parse_from idx last_label rest
      | Some m =>
          let start := group "start" m in
          let end_ := group "end" m in
          let label := group "label" m in
          let text := strip (group "text" m) in
          {| index := idx;
             start_time := start;
             end_time := end_;
             speaker_label := label;
             text := text;
             previous_speaker_label := last_label |}
          :: parse_from (idx + 1) (Some label) rest
      end
  end.

Definition parse_utterances (lines : list string) : list Utterance :=
  parse_from 0 None lines.

(** ** The per-label summary *)

(** [us[:k]] for any integer [k]. *)
Definition slice_to (A : Type) (k : Z) (us : list A) : list A :=
  if (k <? 0)%Z then firstn (Z.to_nat (Z.of_nat (List.length us) + k)) us
  else firstn (Z.to_nat k) us.

(** [by_label.setdefault(u.speaker_label, []).append(u)] *)
Definition group_append (by_label : list (string * list Utterance))
  (u : Utterance) : list (string * list Utterance) :=
  match lookup (speaker_label u) by_label with
  | Some us => assign (speaker_label u) (us ++ [u]) by_label
  | None => assign (speaker_label u) [u] by_label
  end.

Definition group_by_label (utterances : list Utterance)
  : list (string * list Utterance) :=
  fold_left group_append utterances [].

Definition opt_str (o : option string) : value :=
  match o with Some s => VStr s | None => VNone end.

Definition example_of (h : Utterance) : value :=
  VDict [ ("index", VInt (Z.of_nat (index h)));
          ("start", VStr (start_time h));
          ("end", VStr (end_time h));
          ("prev_label", opt_str (previous_speaker_label h));
          ("text_snippet", VStr (prefix 400 (text h))) ].

Definition summary_entry (max_utterances_per_speaker : Z) (us : list Utterance)
  : value :=
  let head_us := slice_to max_utterances_per_speaker us in
  let examples := map example_of head_us in
  VDict [ ("first_seen",
           match head_us with
           | h :: _ => VStr (start_time h)
           | [] => VNone
           end);
          ("num_observed", VInt (Z.of_nat (List.length us)));
          ("examples", VList examples) ].

Definition summarize_observed_speakers (utterances : list Utterance)
  (max_utterances_per_speaker : Z) : dict :=
  fold_left
    (fun summary '(label, us) =>
       assign label (summary_entry max_utterances_per_speaker us) summary)
    (group_by_label utterances) [].

(** ** Roster loaders *)

(** [v in {"witness", "member", "person"}]: the set hashes [v], and a list or
    a dict has no hash. *)
Definition in_type_set (v : value) : result bool :=
  match v with
  | VStr s => Ok ((s =? "witness")%string || (s =? "member")%string
                  || (s =? "person")%string)
  | VList _ | VDict _ => Raise TypeError
  | _ => Ok false
  end.

(** The condition of the [if] in [load_known_speakers_from_jsonl];
    [obj.get] exists on a dict only. *)
Definition jsonl_keep (obj : value) : result (option dict) :=
  match obj with
  | VDict d =>
      is_person <- in_type_set (get "type" d) ;;
      Ok (if is_person && truthy (get "name" d) then Some d else None)
  | _ => Raise AttributeError
  end.

(** The loop over the lines of the file. *)
Fixpoint jsonl_rows (env : Env) (lines : list string) : result (list dict) :=
  match lines with
  | [] => Ok []
  | raw :: rest =>
      let raw := strip raw in
      if (raw =? "")%string then jsonl_rows env rest
      else
        match json_loads env raw with
        | None => jsonl_rows env rest
        | Some obj =>
            kept <- jsonl_keep obj ;;
            rows <- jsonl_rows env rest ;;
            Ok (match kept with Some d => d :: rows | None => rows end)
        end
  end.

Definition load_known_speakers_from_jsonl (env : Env) (path : string)
  : result (list dict) :=
  text <- open_read env path ;;
  jsonl_rows env (file_lines text).

(** [isinstance(d, dict) and d.get("name")] *)
Definition named_dict (v : value) : option dict :=
  match v with
  | VDict d => if truthy (get "name" d) then Some d else None
  | _ => None
  end.

Fixpoint named_dicts (l : list value) : list dict :=
  match l with
  | [] => []
  | v :: rest =>
      match named_dict v with
      | Some d => d :: named_dicts rest
      | None => named_dicts rest
      end
  end.

Definition load_known_speakers_from_json (env : Env) (path : string)
  : result (list dict) :=
  text <- open_read env path ;;
  match json_loads env text with
  | None => Raise JSONDecodeError
  | Some (VList data) => Ok (named_dicts data)
  | Some _ => Ok []
  end.

(** The row built from one member entry. *)
Definition member_row (key : string) (item : dict) : dict :=
  setdefault "chamber" (VStr "house")
    (setdefault "committee_id" (VStr key)
       (setdefault "type" (VStr "member") item)).

(** [except Exception] around the [open] and the [json.load] turns every
    failure of the two into the empty list; [data.get] is outside of it. The
    committee id is a string, so [committee_id or ""] is the id itself. *)
Definition load_committee_members_from_unitedstates_file (env : Env)
  (membership_json_path : string) (committee_id : string)
  : result (list dict) :=
  let loaded :=
    text <- open_read env membership_json_path ;;
    match json_loads env text with
    | Some data => Ok data
    | None => Raise JSONDecodeError
    end in
  match loaded with
  | Raise _ => Ok []
  | Ok data =>
      let key := upper (strip committee_id) in
      match data with
      | VDict d =>
          match get key d with
          | VList raw => Ok (map (member_row key) (named_dicts raw))
          | VDict raw => Ok (map (member_row key) (named_dicts (values raw)))
          | _ => Ok []
          end
      | _ => Raise AttributeError
      end
  end.

(** ** Merging rosters *)

Record merge_state : Type := {
  merged : list (string * dict);
  name_keyed : list (string * string)
}.

Definition _key_for (env : Env) (d : dict) : result string :=
  if truthy (get "bioguide" d) then
    Ok ("bioguide:" ++ format_value env (get "bioguide" d))%string
  else
    match or_else (get "name" d) (VStr "") with
    | VStr n => Ok ("name:" ++ lower (strip n))%string
    | _ => Raise AttributeError
    end.

Definition is_none (v : value) : bool :=
  match v with VNone => true | _ => false end.

(** The shallow merge: a field the record has stays, a new one that is not
    [None] is added. *)
Definition merge_fields (existing : dict) (d : dict) : dict :=
  fold_left
    (fun acc '(key, val) =>
       if negb (contains key acc) && negb (is_none val)
       then assign key val acc else acc)
    d existing.

(** The body of the inner loop, for one entry [d] of a source. *)
Definition merge_record (env : Env) (st : merge_state) (d : value)
  : result merge_state :=
  match d with
  | VDict d =>
      if negb (truthy (get "name" d)) then Ok st
      else
        k <- _key_for env d ;;
        match lookup k (merged st) with
        | None =>
            let merged' := assign k d (merged st) in
            if truthy (get "name" d) then
              match get "name" d with
              | VStr n =>
                  Ok {| merged := merged';
                        name_keyed := assign (lower (strip n)) k (name_keyed st) |}
              | _ => Raise AttributeError
              end
            else Ok {| merged := merged'; name_keyed := name_keyed st |}
        | Some existing =>
            Ok {| merged := assign k (merge_fields existing d) (merged st);
                  name_keyed := name_keyed st |}
        end
  | _ => Ok st
  end.

Fixpoint merge_list (env : Env) (st : merge_state) (lst : list value)
  : result merge_state :=
  match lst with
  | [] => Ok st
  | d :: rest => st' <- merge_record env st d ;; merge_list env st' rest
  end.

Fixpoint merge_sources (env : Env) (st : merge_state)
  (sources : list (list value)) : result merge_state :=
  match sources with
  | [] => Ok st
  | lst :: rest => st' <- merge_list env st lst ;; merge_sources env st' rest
  end.

Definition merge_known_speakers (env : Env) (sources : list (list value))
  : result (list dict) :=
  st <- merge_sources env {| merged := []; name_keyed := [] |} sources ;;
  Ok (values (merged st)).

(** ** Prompt and resolver *)

Definition guidance : string :=
  ("You will map generic transcript labels (e.g., SPEAKER_A) to real people from the provided list." ++ nl
   ++ "Use cues in early utterances: who opens the hearing (Chair), ranking member, witness intros, salutations, and self-identification." ++ nl
   ++ "Consider adjacency (who speaks before/after) and role clues in text." ++ nl
   ++ "If uncertain, set the name to 'Unknown' and include 'confidence': 0." ++ nl
   ++ "Return ONLY JSON with the schema: {" ++ dq ++ "mapping" ++ dq
   ++ ": {label: {" ++ dq ++ "name" ++ dq ++ ": str, " ++ dq ++ "confidence"
   ++ dq ++ ": number, " ++ dq ++ "reason" ++ dq ++ ": str}}}.")%string.

Definition build_mapping_prompt (env : Env) (known_speakers : list dict)
  (observed_summary : dict) (transcript_head_text : string) : string :=
  let payload :=
    VDict [ ("known_speakers", VList (map VDict known_speakers));
            ("observed_speakers", VDict observed_summary);
            ("transcript_head", VStr transcript_head_text) ] in
  (guidance ++ nl ++ nl ++ json_dumps env payload)%string.

(** [getattr(o, name, None)], and [hasattr]: only an object of the client
    library carries the attributes looked for. *)
Definition getattr (o : pyobj) (name : string) : option pyobj :=
  match o with
  | OObj attrs => lookup name attrs
  | _ => None
  end.

Definition obj_truthy (o : pyobj) : bool :=
  match o with
  | ONone => false
  | OStr s => negb (s =? "")%string
  | OList l => match l with [] => false | _ => true end
  | OObj _ => true
  end.

(** Both [try] blocks catch every exception, so the function returns; what it
    returns from [text.value] is whatever the attribute holds. *)
Definition _coalesce_response_text (resp : pyobj) : pyobj :=
  match getattr resp "output_text" with
  | Some (OStr parts) => OStr parts
  | _ =>
      match getattr resp "output" with
      | Some (OList (first :: _)) =>
          match getattr first "content" with
          | Some (OList (c0 :: _)) =>
              match getattr c0 "text" with
              | Some text =>
                  if obj_truthy text then
                    match getattr text "value" with
                    | Some v => v
                    | None => OStr ""
                    end
                  else OStr ""
              | None => OStr ""
              end
          | _ => OStr ""
          end
      | _ => OStr ""
      end
  end.

(** A run of the resolver: the requests it handed to the client, in order,
    and what the call returned or raised. *)
Record run (A : Type) : Type := {
  issued : list request;
  outcome : result A
}.

Definition system_prompt : string :=
  "You are a precise mapping assistant for congressional hearings.".

Definition resolve_speakers_via_llm (env : Env) (known_speakers : list dict)
  (observed_summary : dict) (transcript_head_lines : list string)
  (model : string) (reasoning_effort : string) (temperature : float)
  : run dict :=
  let transcript_text := join nl transcript_head_lines in
  let prompt :=
    build_mapping_prompt env known_speakers observed_summary transcript_text in
  let req :=
    {| req_model := model;
       req_reasoning := [("effort", VStr reasoning_effort)];
       req_input := [ {| role := "system"; content := system_prompt |};
                      {| role := "user"; content := prompt |} ] |} in
  {| issued := [req];
     outcome :=
       resp <- responses_create env req ;;
       match _coalesce_response_text resp with
       | OStr content =>
           match json_loads env content with
           | None => Ok []
           | Some (VDict parsed) =>
               match or_else (get "mapping" parsed) (VDict []) with
               | VDict mapping => Ok mapping
               | _ => Ok []
               end
           | Some _ => Raise AttributeError
           end
       | _ => Raise TypeError
       end |}.

(** ** The pipeline *)

Definition resolve_speakers_from_files (env : Env)
  (transcript_path speakers_path speakers_format : string)
  (committee_membership_path : option string) (committee_id : string)
  (max_lines max_utterances_per_speaker : Z) (model reasoning_effort : string)
  : run dict :=
  let prepared :=
    head_lines <- read_transcript_head env transcript_path max_lines ;;
    let utterances := parse_utterances head_lines in
    let summary :=
      summarize_observed_speakers utterances max_utterances_per_speaker in
    known <-
      (if (lower speakers_format =? "jsonl")%string
       then load_known_speakers_from_jsonl env speakers_path
       else load_known_speakers_from_json env speakers_path) ;;
    members <-
      match committee_membership_path with
      | Some p => load_committee_members_from_unitedstates_file env p committee_id
      | None => Ok []
      end ;;
    known <-
      match members with
      | [] => Ok known
      | _ => merge_known_speakers env [map VDict known; map VDict members]
      end ;;
    Ok (head_lines, summary, known) in
  match prepared with
  | Raise e => {| issued := []; outcome := Raise e |}
  | Ok (head_lines, summary, known) =>
      resolve_speakers_via_llm env known summary head_lines model
        reasoning_effort PrimFloat.zero
  end.

(* ================================================================== *)
(** * Part II. Properties                                               *)
(* ================================================================== *)

(** ** Association lists *)

Section DictFacts.
Variable V : Type.
Implicit Types (d : list (string * V)) (k : string) (v : V).

Lemma lookup_none_keys k d : lookup k d = None <-> ~ In k (keys d).
Proof.
  induction d as [|[k' v'] d IH]; simpl.
  - tauto.
  - destruct (String.eqb_spec k k') as [->|Hne].
    + split; [discriminate | intros H; exfalso; apply H; now left].
    + rewrite IH. split; intros H; [intros [E|E]; [congruence | tauto] | tauto].
Qed.

Lemma lookup_some_in k v d : lookup k d = Some v -> In (k, v) d.
Proof.
  induction d as [|[k' v'] d IH]; simpl; [discriminate|].
  destruct (String.eqb_spec k k') as [->|Hne].
  - intros [= ->]. now left.
  - intros H. right. auto.
Qed.

Lemma assign_fresh k v d : lookup k d = None -> assign k v d = d ++ [(k, v)].
Proof.
  induction d as [|[k' v'] d IH]; simpl; [reflexivity|].
  destruct (String.eqb_spec k k') as [->|Hne]; [discriminate|].
  intros H. now rewrite IH.
Qed.

Lemma keys_assign_present k v d :
  lookup k d <> None -> keys (assign k v d) = keys d.
Proof.
  induction d as [|[k' v'] d IH]; simpl; [congruence|].
  destruct (String.eqb_spec k k') as [->|Hne]; simpl; [reflexivity|].
  intros H. now rewrite IH.
Qed.

Lemma lookup_assign_same k v d : lookup k (assign k v d) = Some v.
Proof.
  induction d as [|[k' v'] d IH]; simpl.
  - now rewrite String.eqb_refl.
  - destruct (String.eqb_spec k k') as [->|Hne]; simpl.
    + now rewrite String.eqb_refl.
    + destruct (String.eqb_spec k k'); [contradiction | exact IH].
Qed.

Lemma lookup_assign_other k k' v d :
  k' <> k -> lookup k' (assign k v d) = lookup k' d.
Proof.
  intros Hne. induction d as [|[k0 v0] d IH]; simpl.
  - destruct (String.eqb_spec k' k); [contradiction | reflexivity].
  - destruct (String.eqb_spec k k0) as [->|Hk]; simpl.
    + destruct (String.eqb_spec k' k0); [contradiction | reflexivity].
    + destruct (String.eqb_spec k' k0); [reflexivity | exact IH].
Qed.

(** Replacing the value of a key leaves the other entries where they are. *)
Lemma assign_in k v d x :
  In x (assign k v d) -> x = (k, v) \/ In x d.
Proof.
  induction d as [|[k' v'] d IH]; simpl.
  - intros [<-|[]]. now left.
  - destruct (String.eqb_spec k k') as [->|Hne]; simpl.
    + intros [<-|H]; [now left | right; now right].
    + intros [<-|H]; [right; now left|].
      destruct (IH H) as [->|H']; [now left | right; now right].
Qed.
End DictFacts.

Lemma get_lookup k (d : dict) v : lookup k d = Some v -> get k d = v.
Proof. unfold get. now intros ->. Qed.

(** ** Merging rosters *)

(** Two results agree up to a relation on what they return. *)
Definition result_rel (A : Type) (R : A -> A -> Prop) (x y : result A) : Prop :=
  match x, y with
  | Ok a, Ok b => R a b
  | Raise e1, Raise e2 => e1 = e2
  | _, _ => False
  end.

(** The entries of a source are dicts as Python builds them. *)
Definition source_wf (lst : list value) : Prop :=
  forall d, In (VDict d) lst -> dict_wf d.

(** The fields of [d] that the shallow merge may add. *)
Definition kept_fields (d : dict) : dict :=
  filter (fun kv => negb (is_none (snd kv))) d.

Lemma lookup_merge_fields key d : forall existing,
  lookup key (merge_fields existing d) =
  match lookup key existing with
  | Some v => Some v
  | None => lookup key (kept_fields d)
  end.
Proof.
  unfold merge_fields.
  induction d as [|[k0 v0] d IH]; intros existing; simpl.
  - now destruct (lookup key existing).
  - rewrite IH. unfold contains.
    destruct (lookup k0 existing) as [w|] eqn:Hk0; simpl.
    + destruct (lookup key existing) eqn:Hkey; [reflexivity|].
      destruct (is_none v0); simpl; [reflexivity|].
      destruct (String.eqb_spec key k0) as [->|Hne]; [congruence | reflexivity].
    + destruct (is_none v0); simpl; [reflexivity|].
      destruct (String.eqb_spec key k0) as [->|Hne].
      * now rewrite lookup_assign_same, Hk0.
      * now rewrite lookup_assign_other.
Qed.

Lemma lookup_kept_fields key v d :
  dict_wf d -> lookup key (kept_fields d) = Some v -> lookup key d = Some v.
Proof.
  unfold dict_wf.
  induction d as [|[k0 v0] d IH]; simpl; [discriminate|].
  intros Hnd H. inversion Hnd as [|? ? Hnotin Hnd']; subst.
  destruct (String.eqb_spec key k0) as [->|Hne].
  - destruct (is_none v0); simpl in H.
    + exfalso. apply Hnotin. apply lookup_some_in in H.
      apply filter_In in H. destruct H as [H _].
      apply (in_map fst) in H. exact H.
    + now rewrite String.eqb_refl in H.
  - apply IH; [assumption|].
    destruct (is_none v0); simpl in H; [assumption|].
    destruct (String.eqb_spec key k0); [contradiction | assumption].
Qed.

Section Merge.
Variable env : Env.

Lemma key_for_ext r1 r2 :
  get "bioguide" r1 = get "bioguide" r2 ->
  get "name" r1 = get "name" r2 ->
  _key_for env r1 = _key_for env r2.
Proof. unfold _key_for. now intros -> ->. Qed.

(** What the merge keeps true of a record stored under the key [k]: the key
    is the record's own, and the name is a string that is not empty. *)
Definition record_ok (k : string) (r : dict) : Prop :=
  _key_for env r = Ok k /\ exists n, get "name" r = VStr n /\ n <> "".

Definition roster_ok (m : list (string * dict)) : Prop :=
  NoDup (keys m) /\ forall k r, In (k, r) m -> record_ok k r.

Lemma get_merge_fields_present key r d :
  lookup key r <> None -> get key (merge_fields r d) = get key r.
Proof.
  intros H. unfold get. rewrite lookup_merge_fields.
  now destruct (lookup key r).
Qed.

Lemma record_ok_merge_fields k r d :
  dict_wf d -> record_ok k r -> _key_for env d = Ok k ->
  record_ok k (merge_fields r d).
Proof.
  intros Hwf [Hkey (n & Hname & Hn)] Hd.
  assert (Hname' : get "name" (merge_fields r d) = get "name" r).
  { apply get_merge_fields_present. unfold get in Hname.
    destruct (lookup "name" r); [discriminate | discriminate]. }
  split; [| exists n; split; [congruence | assumption]].
  rewrite <- Hkey.
  destruct (lookup "bioguide" r) as [b|] eqn:Hb.
  - apply key_for_ext; [|assumption].
    apply get_merge_fields_present. congruence.
  - assert (Hrb : get "bioguide" r = VNone) by (unfold get; now rewrite Hb).
    unfold _key_for in Hkey. rewrite Hrb in Hkey. simpl in Hkey.
    rewrite Hname in Hkey. unfold or_else in Hkey. simpl in Hkey.
    destruct (n =? "")%string eqn:En; simpl in Hkey;
      [apply String.eqb_eq in En; contradiction|].
    assert (Hdb : truthy (get "bioguide" d) = false).
    { unfold _key_for in Hd. destruct (truthy (get "bioguide" d)); [|reflexivity].
      rewrite <- Hkey in Hd. discriminate. }
    assert (Hmb : truthy (get "bioguide" (merge_fields r d)) = false).
    { unfold get at 1. rewrite lookup_merge_fields, Hb.
      destruct (lookup "bioguide" (kept_fields d)) as [v|] eqn:Hk; [|reflexivity].
      apply lookup_kept_fields in Hk; [|assumption].
      apply get_lookup in Hk. now rewrite <- Hk. }
    unfold _key_for. rewrite Hmb, Hrb, Hname'. reflexivity.
Qed.
End Merge.

Section MergeSteps.
Variable env : Env.

Definition same_merged (s1 s2 : merge_state) : Prop := merged s1 = merged s2.

(** [name_keyed] is written and never read: the records do not depend on it. *)
Lemma merge_record_same_merged s1 s2 d :
  same_merged s1 s2 ->
  result_rel same_merged (merge_record env s1 d) (merge_record env s2 d).
Proof.
  unfold same_merged. intros E. destruct d as [| | | | |l|r]; simpl; try exact E.
  destruct (truthy (get "name" r)); simpl; [|exact E].
  destruct (_key_for env r) as [k|e]; simpl; [|reflexivity].
  rewrite E. destruct (lookup k (merged s2)); simpl; [reflexivity|].
  destruct (get "name" r); simpl; reflexivity.
Qed.

Lemma merge_list_same_merged lst : forall s1 s2,
  same_merged s1 s2 ->
  result_rel same_merged (merge_list env s1 lst) (merge_list env s2 lst).
Proof.
  induction lst as [|d lst IH]; intros s1 s2 E; simpl; [exact E|].
  pose proof (merge_record_same_merged d E) as H.
  destruct (merge_record env s1 d), (merge_record env s2 d); simpl in *;
    try contradiction; auto.
Qed.

Lemma merge_list_app l1 : forall st l2,
  merge_list env st (l1 ++ l2) =
  (st' <- merge_list env st l1 ;; merge_list env st' l2).
Proof.
  induction l1 as [|d l1 IH]; intros st l2; simpl; [reflexivity|].
  destruct (merge_record env st d); simpl; [apply IH | reflexivity].
Qed.

Lemma merge_sources_concat sources : forall st,
  merge_sources env st sources = merge_list env st (List.concat sources).
Proof.
  induction sources as [|lst sources IH]; intros st; simpl; [reflexivity|].
  rewrite merge_list_app.
  destruct (merge_list env st lst); simpl; [apply IH | reflexivity].
Qed.

Lemma merge_record_roster_ok st d st' :
  (forall r, d = VDict r -> dict_wf r) ->
  roster_ok env (merged st) ->
  merge_record env st d = Ok st' ->
  roster_ok env (merged st').
Proof.
  intros Hwf Hok. destruct d as [| | | | |l|r]; simpl;
    try (intros [= <-]; exact Hok).
  destruct (truthy (get "name" r)) eqn:Hname; simpl;
    [|intros [= <-]; exact Hok].
  destruct (_key_for env r) as [k|e] eqn:Hkey; simpl; [|discriminate].
  destruct Hok as [Hnd Hrec].
  destruct (lookup k (merged st)) as [existing|] eqn:Hlk.
  - intros [= <-]; simpl. split.
    + rewrite keys_assign_present; [assumption | congruence].
    + intros k' r' Hin. apply assign_in in Hin. destruct Hin as [[= -> ->]|Hin].
      * apply record_ok_merge_fields; auto.
        apply Hrec. now apply lookup_some_in.
      * now apply Hrec.
  - destruct (get "name" r) as [| | | |n| |] eqn:Hn; try discriminate.
    intros [= <-]; simpl.
    rewrite assign_fresh by assumption. split.
    + unfold keys. rewrite map_app. simpl.
      apply NoDup_app; [assumption | repeat constructor; simpl; tauto |].
      intros x Hx [<-|[]]. now apply lookup_none_keys in Hlk.
    + intros k' r' Hin. apply in_app_or in Hin.
      destruct Hin as [Hin|[[= <- <-]|[]]]; [now apply Hrec|].
      split; [assumption|].
      exists n. split; [assumption|].
      intros ->. discriminate.
Qed.
End MergeSteps.

Section MergeRoster.
Variable env : Env.

Lemma source_wf_app l1 l2 : source_wf l1 -> source_wf l2 -> source_wf (l1 ++ l2).
Proof.
  intros H1 H2 d Hin. apply in_app_or in Hin. destruct Hin; auto.
Qed.

Lemma merge_list_roster_ok lst : forall st st',
  source_wf lst ->
  roster_ok env (merged st) ->
  merge_list env st lst = Ok st' ->
  roster_ok env (merged st').
Proof.
  induction lst as [|d lst IH]; intros st st' Hwf Hok; simpl.
  - now intros [= <-].
  - destruct (merge_record env st d) as [st1|e] eqn:Hstep; simpl; [|discriminate].
    apply IH.
    + intros r Hin. apply Hwf. now right.
    + eapply merge_record_roster_ok; eauto.
      intros r ->. apply Hwf. now left.
Qed.

(** Merging the records of a merged roster again rebuilds that roster. *)
Lemma merge_list_replay m2 : forall m1 nk,
  roster_ok env (m1 ++ m2) ->
  exists nk',
    merge_list env {| merged := m1; name_keyed := nk |} (map VDict (values m2))
    = Ok {| merged := m1 ++ m2; name_keyed := nk' |}.
Proof.
  induction m2 as [|[k r] m2 IH]; intros m1 nk Hok; simpl.
  - exists nk. now rewrite app_nil_r.
  - destruct Hok as [Hnd Hrec].
    destruct (Hrec k r) as [Hkey (n & Hname & Hn)];
      [apply in_or_app; right; now left|].
    assert (Hfresh : lookup k m1 = None).
    { apply lookup_none_keys. unfold keys in Hnd. rewrite map_app in Hnd.
      simpl in Hnd. apply NoDup_remove_2 in Hnd.
      intros Hin. apply Hnd. apply in_or_app. now left. }
    rewrite Hname, Hkey. simpl.
    destruct (n =? "")%string eqn:En;
      [apply String.eqb_eq in En; contradiction|]. simpl.
    rewrite Hfresh, assign_fresh by assumption.
    destruct (IH (m1 ++ [(k, r)]) (assign (lower (strip n)) k nk)) as [nk' H].
    { rewrite <- app_assoc. simpl. split; assumption. }
    exists nk'. rewrite <- app_assoc in H. exact H.
Qed.

Lemma roster_ok_keys m :
  roster_ok env m -> map (_key_for env) (values m) = map Ok (keys m).
Proof.
  intros [_ Hrec]. induction m as [|[k r] m IH]; simpl; [reflexivity|].
  f_equal.
  - apply Hrec. now left.
  - apply IH. intros k' r' Hin. apply Hrec. now right.
Qed.

Lemma roster_ok_nil : roster_ok env [].
Proof. split; [constructor | intros k r []]. Qed.

(** The invariant of the data model: a merged roster holds one record per
    identity key. *)
Lemma merge_known_speakers_keys_distinct sources roster :
  Forall source_wf sources ->
  merge_known_speakers env sources = Ok roster ->
  exists ks, NoDup ks /\ map (_key_for env) roster = map Ok ks.
Proof.
  intros Hwf. unfold merge_known_speakers. rewrite merge_sources_concat.
  destruct (merge_list env _ _) as [st|e] eqn:Hrun; simpl; [|discriminate].
  intros [= <-].
  assert (Hok : roster_ok env (merged st)).
  { eapply merge_list_roster_ok; [| |exact Hrun]; [|apply roster_ok_nil].
    intros d Hin. apply in_concat in Hin. destruct Hin as (lst & Hl & Hd).
    rewrite Forall_forall in Hwf. exact (Hwf lst Hl d Hd). }
  exists (keys (merged st)). split; [apply Hok | now apply roster_ok_keys].
Qed.
End MergeRoster.

(** The two roster records of the example scenario. *)
Definition jane_with_bioguide : dict :=
  [("name", VStr "Jane Doe"); ("bioguide", VStr "D001")].
Definition jane_with_party : dict :=
  [("name", VStr "Jane Doe"); ("party", VStr "majority")].

(** C1. On the example scenario of the specification, the sources
    [[{name: Jane Doe, bioguide: D001}]] then [[{name: Jane Doe, party:
    majority}]], [merge_known_speakers] returns two records, the two inputs
    unchanged: the second record is filed under its name key, and the name
    index that the first record filled is never consulted. *)
Theorem merge_example_returns_two_records (env : Env) :
  merge_known_speakers env [[VDict jane_with_bioguide]; [VDict jane_with_party]]
  = Ok [jane_with_bioguide; jane_with_party].
Proof. reflexivity. Qed.

(** The same for any record with a bioguide followed by a record of the same
    name without one: both are kept. *)
Lemma merge_bioguide_then_name_only (env : Env) (r1 r2 : dict) (n1 n2 : string) :
  get "name" r1 = VStr n1 -> n1 <> "" ->
  get "name" r2 = VStr n2 -> n2 <> "" ->
  truthy (get "bioguide" r1) = true ->
  truthy (get "bioguide" r2) = false ->
  merge_known_speakers env [[VDict r1]; [VDict r2]] = Ok [r1; r2].
Proof.
  intros H1 Hn1 H2 Hn2 Hb1 Hb2.
  assert (E1 : (n1 =? "")%string = false) by now apply String.eqb_neq.
  assert (E2 : (n2 =? "")%string = false) by now apply String.eqb_neq.
  unfold merge_known_speakers, _key_for; simpl.
  unfold _key_for, or_else. rewrite H1, H2, Hb1, Hb2. simpl.
  rewrite E1, E2. simpl. reflexivity.
Qed.

(** C5. Merging the sources [A], [B], [C] in one call gives what merging [A]
    and [B] first and then the result with [C] gives: the same records, in the
    same order, with the same fields, and the same exception when one is
    raised. The entries of [A] and [B] are dicts as Python builds them. *)
Theorem merge_known_speakers_assoc (env : Env) (A B C : list value) :
  source_wf A -> source_wf B ->
  merge_known_speakers env [A; B; C] =
  (AB <- merge_known_speakers env [A; B] ;;
   merge_known_speakers env [map VDict AB; C]).
Proof.
  intros HA HB. unfold merge_known_speakers.
  rewrite !merge_sources_concat. simpl List.concat. rewrite !app_nil_r.
  rewrite app_assoc, merge_list_app.
  destruct (merge_list env _ (A ++ B)) as [stAB|e] eqn:Hrun; cbn [bind];
    [|reflexivity].
  assert (Hok : roster_ok env (merged stAB)).
  { eapply merge_list_roster_ok; [| |exact Hrun];
      [now apply source_wf_app | apply roster_ok_nil]. }
  rewrite merge_sources_concat. simpl List.concat. rewrite app_nil_r, merge_list_app.
  destruct (@merge_list_replay env (merged stAB) [] [] Hok) as [nk' Hreplay].
  simpl app in Hreplay. rewrite Hreplay. cbn [bind].
  pose proof (@merge_list_same_merged env C stAB
                {| merged := merged stAB; name_keyed := nk' |} eq_refl) as Hrel.
  destruct (merge_list env stAB C), (merge_list env _ C); simpl in *;
    try contradiction; congruence.
Qed.

(** ** The parser's counters *)

(** What one line contributes: the four captured fields, when it matches. *)
Definition line_fields (line : string)
  : option (string * string * string * string) :=
  match re_match SPEAKER_LINE_RE line with
  | Some m =>
      Some (group "start" m, group "end" m, group "label" m,
            strip (group "text" m))
  | None => None
  end.

Definition utterance_fields (u : Utterance)
  : string * string * string * string :=
  (start_time u, end_time u, speaker_label u, text u).

Definition label_of (u : Utterance) : option string := Some (speaker_label u).

Lemma parse_from_index lines : forall idx last,
  map index (parse_from idx last lines)
  = seq idx (List.length (parse_from idx last lines)).
Proof.
  induction lines as [|line lines IH]; intros idx last; simpl; [reflexivity|].
  destruct (re_match SPEAKER_LINE_RE line); simpl; [|apply IH].
  f_equal. rewrite IH. now rewrite Nat.add_1_r.
Qed.

Lemma parse_from_previous lines : forall idx last,
  map previous_speaker_label (parse_from idx last lines)
  = firstn (List.length (parse_from idx last lines))
      (last :: map label_of (parse_from idx last lines)).
Proof.
  induction lines as [|line lines IH]; intros idx last; simpl; [reflexivity|].
  destruct (re_match SPEAKER_LINE_RE line); simpl; [|apply IH].
  f_equal. apply IH.
Qed.

Lemma parse_from_fields lines : forall idx last,
  map utterance_fields (parse_from idx last lines)
  = flat_map (fun line => match line_fields line with
                          | Some f => [f]
                          | None => []
                          end) lines.
Proof.
  induction lines as [|line lines IH]; intros idx last; simpl; [reflexivity|].
  unfold line_fields.
  destruct (re_match SPEAKER_LINE_RE line); simpl; [|apply IH].
  f_equal. apply IH.
Qed.

(** C6. For every list of lines, the utterances of [parse_utterances] carry
    the indices 0, 1, ..., n-1 in that order; they are the matching lines in
    line order, a line that does not match giving nothing; the previous label
    of the first utterance is [None], and that of every other one is the label
    of the utterance just before it. *)
Theorem parse_utterances_indices_and_adjacency (lines : list string) :
  map index (parse_utterances lines)
  = seq 0 (List.length (parse_utterances lines))
  /\ map utterance_fields (parse_utterances lines)
     = flat_map (fun line => match line_fields line with
                             | Some f => [f]
                             | None => []
                             end) lines
  /\ map previous_speaker_label (parse_utterances lines)
     = firstn (List.length (parse_utterances lines))
         (None :: map label_of (parse_utterances lines)).
Proof.
  unfold parse_utterances. split; [|split].
  - apply parse_from_index.
  - apply parse_from_fields.
  - apply parse_from_previous.
Qed.

(** The example scenarios of the specification. *)
Example parse_example_line :
  parse_utterances ["[00:01:02 - 00:01:10] SPEAKER_A: Thank you, Chairman."]
  = [ {| index := 0; start_time := "00:01:02"; end_time := "00:01:10";
         speaker_label := "SPEAKER_A"; text := "Thank you, Chairman.";
         previous_speaker_label := None |} ].
Proof. reflexivity. Qed.

Example parse_example_skipped :
  parse_utterances ["Chairman opens the hearing."] = [].
Proof. reflexivity. Qed.

(** ** The summary *)

Section AssignKeys.
Variable V : Type.

Lemma assign_keys_nodup k (v : V) d :
  NoDup (keys d) -> NoDup (keys (assign k v d)).
Proof.
  intros Hnd. destruct (lookup k d) eqn:Hk.
  - rewrite keys_assign_present; [assumption | congruence].
  - rewrite assign_fresh by assumption. unfold keys. rewrite map_app. simpl.
    apply NoDup_app; [assumption | repeat constructor; simpl; tauto|].
    intros x Hx [<-|[]]. now apply lookup_none_keys in Hk.
Qed.
End AssignKeys.

(** The utterances of one label, in transcript order. *)
Definition of_label (label : string) (us : list Utterance) : list Utterance :=
  filter (fun u => (speaker_label u =? label)%string) us.

Lemma lookup_group_append label acc u :
  lookup label (group_append acc u) =
  if (speaker_label u =? label)%string
  then Some (match lookup label acc with Some l => l | None => [] end ++ [u])
  else lookup label acc.
Proof.
  unfold group_append.
  destruct (String.eqb_spec (speaker_label u) label) as [<-|Hne].
  - destruct (lookup (speaker_label u) acc); now rewrite lookup_assign_same.
  - destruct (lookup (speaker_label u) acc);
      rewrite lookup_assign_other; congruence.
Qed.

Lemma lookup_fold_group_append label us : forall acc,
  lookup label (fold_left group_append us acc) =
  match lookup label acc with
  | Some l => Some (l ++ of_label label us)
  | None => match of_label label us with [] => None | m => Some m end
  end.
Proof.
  induction us as [|u us IH]; intros acc; simpl.
  - destruct (lookup label acc); [now rewrite app_nil_r | reflexivity].
  - rewrite IH, lookup_group_append.
    destruct (speaker_label u =? label)%string.
    + destruct (lookup label acc); simpl; [now rewrite <- app_assoc | reflexivity].
    + reflexivity.
Qed.

Lemma group_by_label_keys us : NoDup (keys (group_by_label us)).
Proof.
  unfold group_by_label.
  assert (H : forall acc, NoDup (keys acc) ->
                          NoDup (keys (fold_left group_append us acc))).
  { induction us as [|u us IH]; intros acc Hacc; simpl; [assumption|].
    apply IH. unfold group_append.
    destruct (lookup (speaker_label u) acc); now apply assign_keys_nodup. }
  apply H. constructor.
Qed.

Lemma lookup_fold_assign (A : Type) (g : A -> value) label bl : forall acc,
  NoDup (keys bl) ->
  lookup label
    (fold_left (fun summary '(l, us) => assign l (g us) summary) bl acc) =
  match lookup label bl with
  | Some us => Some (g us)
  | None => lookup label acc
  end.
Proof.
  induction bl as [|[l0 us0] bl IH]; intros acc Hnd; simpl; [reflexivity|].
  inversion Hnd as [|? ? Hnotin Hnd']; subst.
  rewrite IH by assumption.
  destruct (String.eqb_spec label l0) as [->|Hne].
  - apply lookup_none_keys in Hnotin. rewrite Hnotin.
    apply lookup_assign_same.
  - destruct (lookup label bl); [reflexivity | now apply lookup_assign_other].
Qed.

(** A label has an entry exactly when it has an utterance, and the entry is
    built from all of its utterances. *)
Lemma summarize_lookup us K label :
  lookup label (summarize_observed_speakers us K) =
  match of_label label us with
  | [] => None
  | mine => Some (summary_entry K mine)
  end.
Proof.
  unfold summarize_observed_speakers.
  rewrite lookup_fold_assign by apply group_by_label_keys.
  unfold group_by_label. rewrite lookup_fold_group_append. simpl.
  now destruct (of_label label us).
Qed.

Lemma slice_to_nonneg (A : Type) (k : Z) (us : list A) :
  (0 <= k)%Z -> slice_to k us = firstn (Z.to_nat k) us.
Proof.
  intros H. unfold slice_to. destruct (Z.ltb_spec k 0); [lia | reflexivity].
Qed.

Lemma prefix_spec n : forall s,
  String.length (prefix n s) = Nat.min n (String.length s)
  /\ exists rest, s = (prefix n s ++ rest)%string.
Proof.
  unfold prefix. induction n as [|n IH]; intros s.
  - destruct s; simpl; (split; [reflexivity | eexists; reflexivity]).
  - destruct s as [|c s]; simpl.
    + split; [reflexivity | exists ""; reflexivity].
    + destruct (IH s) as [Hlen [rest Hrest]]. split; [now rewrite Hlen|].
      exists rest. now rewrite <- Hrest.
Qed.

(** C7. For a cap [K >= 0], the entry of a label in the summary has
    [num_observed] equal to the number of the label's utterances; its examples
    are built, in order, from the first [min K num_observed] of them, so they
    are at most [K] and at most [num_observed]; and the [text_snippet] of an
    example is the first 400 characters of the utterance's text. *)
Theorem summary_counts_and_examples (us : list Utterance) (K : Z)
  (label : string) (e : value) :
  (0 <= K)%Z ->
  lookup label (summarize_observed_speakers us K) = Some e ->
  let mine := of_label label us in
  let shown := firstn (Nat.min (Z.to_nat K) (List.length mine)) mine in
  exists d,
    e = VDict d
    /\ get "num_observed" d = VInt (Z.of_nat (List.length mine))
    /\ get "examples" d = VList (map example_of shown)
    /\ (Z.of_nat (List.length shown) <= K)%Z
    /\ List.length shown <= List.length mine
    /\ forall h, In h shown ->
         exists f snippet,
           example_of h = VDict f
           /\ get "text_snippet" f = VStr snippet
           /\ snippet = prefix 400 (text h)
           /\ String.length snippet = Nat.min 400 (String.length (text h))
           /\ exists rest, text h = (snippet ++ rest)%string.
Proof.
  intros HK Hlk mine shown. rewrite summarize_lookup in Hlk. fold mine in Hlk.
  assert (Hshown : slice_to K mine = shown).
  { rewrite slice_to_nonneg by assumption. unfold shown.
    destruct (Nat.le_ge_cases (Z.to_nat K) (List.length mine)) as [Hle|Hge].
    - now rewrite Nat.min_l.
    - rewrite Nat.min_r by assumption.
      now rewrite !firstn_all2 by lia. }
  assert (He : e = summary_entry K mine).
  { destruct mine; [discriminate | now injection Hlk]. }
  subst e. unfold summary_entry. rewrite Hshown.
  eexists. split; [reflexivity|]. split; [reflexivity|]. split; [reflexivity|].
  assert (Hlen : List.length shown = Nat.min (Z.to_nat K) (List.length mine)).
  { unfold shown. rewrite length_firstn. lia. }
  split; [lia|]. split; [lia|].
  intros h _. exists (match example_of h with VDict f => f | _ => [] end).
  exists (prefix 400 (text h)).
  destruct (prefix_spec 400 (text h)) as [Hl Hrest].
  repeat split; assumption.
Qed.

Definition utterance_a1 : Utterance :=
  {| index := 0; start_time := "00:01:02"; end_time := "00:01:10";
     speaker_label := "SPEAKER_A"; text := "Thank you, Chairman.";
     previous_speaker_label := None |}.
Definition utterance_b1 : Utterance :=
  {| index := 1; start_time := "00:01:11"; end_time := "00:01:20";
     speaker_label := "SPEAKER_B"; text := "I yield.";
     previous_speaker_label := Some "SPEAKER_A" |}.
Definition utterance_a2 : Utterance :=
  {| index := 2; start_time := "00:01:21"; end_time := "00:01:30";
     speaker_label := "SPEAKER_A"; text := "The committee will come to order.";
     previous_speaker_label := Some "SPEAKER_B" |}.
Definition three_utterances : list Utterance :=
  [utterance_a1; utterance_b1; utterance_a2].

Lemma summary_counts_and_examples_witness :
  exists d,
    summary_entry 1 [utterance_a1; utterance_a2] = VDict d
    /\ get "num_observed" d = VInt 2
    /\ get "examples" d = VList [example_of utterance_a1].
Proof.
  destruct (@summary_counts_and_examples three_utterances 1 "SPEAKER_A"
              (summary_entry 1 [utterance_a1; utterance_a2]))
    as (d & He & Hn & Hex & _); [lia | reflexivity |].
  exists d. split; [exact He|]. split; [exact Hn | exact Hex].
Defined.

(** The reading of C8 as it is written: whatever the cap, the entry of a
    label gives the start time of the label's first utterance. *)
Definition first_seen_is_earliest (us : list Utterance) (K : Z) : Prop :=
  forall label d,
    lookup label (summarize_observed_speakers us K) = Some (VDict d) ->
    exists u rest,
      of_label label us = u :: rest /\ get "first_seen" d = VStr (start_time u).

(** With the cap 0 the entry of a label has no first-seen time. *)
Lemma first_seen_with_cap_zero : ~ first_seen_is_earliest [utterance_a1] 0.
Proof.
  intros H.
  destruct (H "SPEAKER_A" _ eq_refl) as (u & rest & _ & Hfs).
  discriminate Hfs.
Qed.

(** C8, amended. For a cap [K >= 0], a label of the summary has at least one
    utterance, and its [first_seen] is the start time of the first of them
    when [K >= 1], and [None] when [K = 0]. *)
Theorem first_seen_of_summary (us : list Utterance) (K : Z) (label : string)
  (d : dict) :
  (0 <= K)%Z ->
  lookup label (summarize_observed_speakers us K) = Some (VDict d) ->
  exists u rest,
    of_label label us = u :: rest
    /\ get "num_observed" d = VInt (Z.of_nat (1 + List.length rest))
    /\ get "first_seen" d =
       if (K =? 0)%Z then VNone else VStr (start_time u).
Proof.
  intros HK Hlk. rewrite summarize_lookup in Hlk.
  destruct (of_label label us) as [|u rest]; [discriminate|].
  exists u, rest. split; [reflexivity|].
  injection Hlk as <-. split; [reflexivity|].
  rewrite slice_to_nonneg by assumption.
  destruct (Z.eqb_spec K 0) as [->|Hne]; [reflexivity|].
  destruct (Z.to_nat K) eqn:E; [lia | reflexivity].
Qed.

Lemma first_seen_of_summary_witness :
  exists d,
    lookup "SPEAKER_A" (summarize_observed_speakers three_utterances 1)
    = Some (VDict d)
    /\ get "first_seen" d = VStr "00:01:02".
Proof.
  eexists. split; [reflexivity|].
  destruct (@first_seen_of_summary three_utterances 1 "SPEAKER_A" _
              ltac:(lia) eq_refl) as (u & rest & Hmine & _ & Hfs).
  injection Hmine as <- _. exact Hfs.
Defined.

(** ** Roster loaders on missing and malformed input *)

(** The source cannot be used: there is no file, or its text is not JSON. *)
Definition unusable (env : Env) (path : string) : Prop :=
  files env path = None
  \/ exists text, files env path = Some text /\ json_loads env text = None.

(** The reading of C2 for one loader: an unusable source gives the empty
    list. *)
Definition empty_on_unusable (load : Env -> string -> result (list dict))
  (env : Env) (path : string) : Prop :=
  unusable env path -> load env path = Ok [].

(** An environment with no file, no parsable text and no service. *)
Definition env_offline : Env :=
  {| py_repr := fun _ => "";
     json_loads := fun _ => None;
     json_dumps := fun _ => "";
     files := fun _ => None;
     responses_create := fun _ => Raise (ServiceError "connection refused") |}.


Lemma json_loader_raises_without_file :
  ~ empty_on_unusable load_known_speakers_from_json env_offline "witnesses.json".
Proof.
  intros H. specialize (H (or_introl eq_refl)). discriminate H.
Qed.

Lemma named_dicts_named l : forall d,
  In d (named_dicts l) -> In (VDict d) l /\ truthy (get "name" d) = true.
Proof.
  induction l as [|v l IH]; intros d; simpl; [tauto|].
  destruct v as [| | | | | |r]; simpl;
    try (intros H; destruct (IH d H); split; [now right | assumption]).
  destruct (truthy (get "name" r)) eqn:Hn.
  - intros [<-|H]; [split; [now left | assumption]|].
    destruct (IH d H). split; [now right | assumption].
  - intros H. destruct (IH d H). split; [now right | assumption].
Qed.




(** ** The resolver *)

(** The service is down: the exception of the inference call reaches the
    caller. *)
Lemma resolver_raises_when_service_fails :
  outcome (resolve_speakers_via_llm env_offline [] [] [] "gpt-5" "medium"
             PrimFloat.zero)
  = Raise (ServiceError "connection refused")
  /\ outcome (resolve_speakers_via_llm env_offline [] [] [] "gpt-5" "medium"
                PrimFloat.zero)
     <> Ok [].
Proof. split; [reflexivity | discriminate]. Qed.

(** C3, amended. The resolver hands one request to the client. When the call
    returns and the response text is not JSON, it returns the empty mapping;
    when the text is a JSON object, it returns the object's [mapping] if that
    is an object and the empty mapping otherwise. When the call raises, the
    exception reaches the caller. *)
Theorem resolver_outcomes (env : Env) (known : list dict) (summary : dict)
  (lines : list string) (model effort : string) (temperature : float) :
  exists req,
    issued (resolve_speakers_via_llm env known summary lines model effort
              temperature) = [req]
    /\ (forall e, responses_create env req = Raise e ->
        outcome (resolve_speakers_via_llm env known summary lines model effort
                   temperature) = Raise e)
    /\ (forall resp content,
        responses_create env req = Ok resp ->
        _coalesce_response_text resp = OStr content ->
        (json_loads env content = None ->
         outcome (resolve_speakers_via_llm env known summary lines model effort
                    temperature) = Ok [])
        /\ (forall parsed, json_loads env content = Some (VDict parsed) ->
            outcome (resolve_speakers_via_llm env known summary lines model
                       effort temperature)
            = Ok (match get "mapping" parsed with
                  | VDict mapping => mapping
                  | _ => []
                  end))).
Proof.
  eexists. split; [reflexivity|]. split.
  - intros e He. simpl. now rewrite He.
  - intros resp content Hr Hc. simpl. rewrite Hr. simpl. rewrite Hc. split.
    + now intros ->.
    + intros parsed ->. unfold or_else.
      destruct (get "mapping" parsed) as [|b|n|f|s|l|m]; simpl; try reflexivity.
      * now destruct b.
      * now destruct (negb (n =? 0)%Z).
      * now destruct (negb (PrimFloat.eqb f PrimFloat.zero)).
      * now destruct (negb (s =? "")%string).
      * now destruct l.
      * now destruct m.
Qed.

(** The service answers with the text [not-json]. *)
Definition env_not_json : Env :=
  {| py_repr := fun _ => "";
     json_loads := fun _ => None;
     json_dumps := fun _ => "";
     files := fun _ => None;
     responses_create := fun _ => Ok (OObj [("output_text", OStr "not-json")]) |}.

Lemma resolver_outcomes_witness :
  outcome (resolve_speakers_via_llm env_not_json [] [] [] "gpt-5" "medium"
             PrimFloat.zero) = Ok [].
Proof.
  destruct (resolver_outcomes env_not_json [] [] [] "gpt-5" "medium"
              PrimFloat.zero) as (req & Hreq & _ & Hok).
  injection Hreq as <-.
  exact (proj1 (Hok _ "not-json" eq_refl eq_refl) eq_refl).
Defined.

(** C10. Two runs of the resolver that differ in the temperature only hand
    the same request to the client, with the same model, the same reasoning
    effort and the same prompt, and end the same way. *)
Theorem temperature_is_ignored (env : Env) (known : list dict) (summary : dict)
  (lines : list string) (model effort : string) (t1 t2 : float) :
  let prompt := build_mapping_prompt env known summary (join nl lines) in
  let req := {| req_model := model;
                req_reasoning := [("effort", VStr effort)];
                req_input := [ {| role := "system"; content := system_prompt |};
                               {| role := "user"; content := prompt |} ] |} in
  issued (resolve_speakers_via_llm env known summary lines model effort t1)
  = [req]
  /\ issued (resolve_speakers_via_llm env known summary lines model effort t2)
     = [req]
  /\ resolve_speakers_via_llm env known summary lines model effort t1
     = resolve_speakers_via_llm env known summary lines model effort t2.
Proof. repeat split. Qed.

(** ** The pipeline's roster *)

Lemma source_wf_dicts (ds : list dict) :
  Forall dict_wf ds -> source_wf (map VDict ds).
Proof.
  intros H d Hin. apply in_map_iff in Hin. destruct Hin as (d' & [= ->] & Hin).
  rewrite Forall_forall in H. now apply H.
Qed.

Lemma lookup_setdefault k v k' (d : dict) :
  lookup k' (setdefault k v d) =
  match lookup k' d with
  | Some x => Some x
  | None => if (k' =? k)%string then Some v else None
  end.
Proof.
  unfold setdefault, contains.
  destruct (lookup k d) eqn:Hk.
  - destruct (lookup k' d) eqn:Hk'; [reflexivity|].
    destruct (String.eqb_spec k' k); [congruence | reflexivity].
  - destruct (String.eqb_spec k' k) as [->|Hne].
    + now rewrite lookup_assign_same, Hk.
    + rewrite lookup_assign_other by assumption. now destruct (lookup k' d).
Qed.

Lemma lookup_member_row key k' item :
  lookup k' (member_row key item) =
  match lookup k' item with
  | Some x => Some x
  | None =>
      if (k' =? "type")%string then Some (VStr "member")
      else if (k' =? "committee_id")%string then Some (VStr key)
           else if (k' =? "chamber")%string then Some (VStr "house")
                else None
  end.
Proof.
  unfold member_row. rewrite !lookup_setdefault.
  destruct (lookup k' item); [reflexivity|].
  destruct (k' =? "type")%string; [reflexivity|].
  destruct (k' =? "committee_id")%string; reflexivity.
Qed.

(** The distinct elements of a list of keys, in the order in which they first
    appear. *)
Fixpoint distinct (ks : list string) : list string :=
  match ks with
  | [] => []
  | k :: rest => k :: filter (fun k' => negb (k' =? k)%string) (distinct rest)
  end.

(** The record [d] has the identity key [k]. *)
Definition has_key (env : Env) (k : string) (d : dict) : bool :=
  match _key_for env d with
  | Ok k' => (k' =? k)%string
  | Raise _ => false
  end.

(** The records of one person as one record: the first of them, with the
    fields that the later ones add to it in turn. *)
Definition coalesced (ds : list dict) : dict :=
  match ds with
  | [] => []
  | d :: rest => fold_left merge_fields rest d
  end.

(** A list of records with the identity keys [ks], deduplicated: one record
    per key, in the order in which the keys first appear. *)
Definition deduplicated (env : Env) (ds : list dict) (ks : list string)
  : list dict :=
  map (fun k => coalesced (filter (has_key env k) ds)) (distinct ks).

(** The record has a name: [d.get("name")] is true. *)
Definition named (d : dict) : Prop := truthy (get "name" d) = true.

Lemma distinct_in k ks : In k (distinct ks) <-> In k ks.
Proof.
  induction ks as [|a ks IH]; simpl; [tauto|].
  rewrite filter_In, IH.
  destruct (String.eqb_spec k a) as [->|Hne]; simpl.
  - split; [intros _; now left | intros _; now left].
  - split.
    + intros [H|[H _]]; [now left | now right].
    + intros [H|H]; [congruence | right; now split].
Qed.

Lemma distinct_nodup ks : NoDup (distinct ks).
Proof.
  induction ks as [|a ks IH]; simpl; constructor.
  - rewrite filter_In. intros [_ H]. now rewrite String.eqb_refl in H.
  - now apply NoDup_filter.
Qed.

Lemma existsb_in k ks : existsb (String.eqb k) ks = true <-> In k ks.
Proof.
  rewrite existsb_exists. split.
  - intros (x & Hx & E). apply String.eqb_eq in E. now subst.
  - intros H. exists k. split; [assumption | apply String.eqb_refl].
Qed.

Lemma distinct_snoc ks k :
  distinct (ks ++ [k]) =
  if existsb (String.eqb k) ks then distinct ks else distinct ks ++ [k].
Proof.
  induction ks as [|a ks IH]; simpl; [reflexivity|].
  rewrite IH. destruct (String.eqb_spec k a) as [->|Hne]; simpl.
  - destruct (existsb (String.eqb a) ks); [reflexivity|].
    rewrite filter_app. simpl. rewrite String.eqb_refl. simpl.
    now rewrite app_nil_r.
  - destruct (existsb (String.eqb k) ks); [reflexivity|].
    rewrite filter_app. simpl.
    destruct (String.eqb_spec k a); [contradiction | reflexivity].
Qed.

Section Keyed.
Variable V : Type.
Variable f : string -> V.

Lemma lookup_keyed k l :
  lookup k (map (fun k0 => (k0, f k0)) l) =
  if existsb (String.eqb k) l then Some (f k) else None.
Proof.
  induction l as [|a l IH]; simpl; [reflexivity|].
  destruct (String.eqb_spec k a) as [->|Hne]; simpl; [reflexivity | exact IH].
Qed.

Lemma assign_keyed k v l :
  NoDup l -> In k l ->
  assign k v (map (fun k0 => (k0, f k0)) l) =
  map (fun k0 => (k0, if (k0 =? k)%string then v else f k0)) l.
Proof.
  induction l as [|a l IH]; simpl; [tauto|].
  intros Hnd Hin. inversion Hnd as [|? ? Hnotin Hnd']; subst.
  destruct (String.eqb_spec k a) as [->|Hne].
  - rewrite String.eqb_refl. f_equal.
    apply map_ext_in. intros k0 Hk0.
    destruct (String.eqb_spec k0 a); [subst; contradiction | reflexivity].
  - destruct (String.eqb_spec a k); [congruence|].
    f_equal. apply IH; [assumption|]. destruct Hin; [congruence | assumption].
Qed.

Lemma keys_keyed l : keys (map (fun k0 => (k0, f k0)) l) = l.
Proof. unfold keys. rewrite map_map. simpl. apply map_id. Qed.

Lemma values_keyed l : values (map (fun k0 => (k0, f k0)) l) = map f l.
Proof. unfold values. now rewrite map_map. Qed.
End Keyed.

Section Dedup.
Variable env : Env.

Lemma has_key_own d k :
  _key_for env d = Ok k -> forall k', has_key env k' d = (k =? k')%string.
Proof. intros H k'. unfold has_key. now rewrite H. Qed.

Lemma filter_has_key_absent src : forall ks k,
  map (_key_for env) src = map Ok ks -> ~ In k ks ->
  filter (has_key env k) src = [].
Proof.
  induction src as [|d src IH]; intros [|k0 ks] k; simpl; try discriminate;
    [reflexivity|].
  intros [= Hd Hrest] Hnotin. rewrite (has_key_own _ Hd).
  destruct (String.eqb_spec k0 k) as [->|Hne]; [exfalso; apply Hnotin; now left|].
  apply (IH ks); [assumption|]. intros H. apply Hnotin. now right.
Qed.

Lemma filter_has_key_present src : forall ks k,
  map (_key_for env) src = map Ok ks -> In k ks ->
  filter (has_key env k) src <> [].
Proof.
  induction src as [|d src IH]; intros [|k0 ks] k; simpl; try discriminate;
    [tauto|].
  intros [= Hd Hrest] Hin. rewrite (has_key_own _ Hd).
  destruct (String.eqb_spec k0 k) as [->|Hne]; [discriminate|].
  apply (IH ks); [assumption|]. destruct Hin; [contradiction | assumption].
Qed.

Lemma coalesced_snoc ds d :
  ds <> [] -> coalesced (ds ++ [d]) = merge_fields (coalesced ds) d.
Proof.
  destruct ds as [|d0 ds]; [contradiction|]. intros _. simpl.
  now rewrite fold_left_app.
Qed.

(** What the loop has built after the records [src], whose keys are [ks]. *)
Definition dedup_state (src : list dict) (ks : list string)
  (m : list (string * dict)) : Prop :=
  map (_key_for env) src = map Ok ks
  /\ m = map (fun k => (k, coalesced (filter (has_key env k) src))) (distinct ks).

Lemma merge_record_dedup st d st' src ks :
  named d ->
  dedup_state src ks (merged st) ->
  merge_record env st (VDict d) = Ok st' ->
  exists k, _key_for env d = Ok k
            /\ dedup_state (src ++ [d]) (ks ++ [k]) (merged st').
Proof.
  unfold named. destruct st as [m nk]. intros Hn [Hkeys Hm]. simpl in Hm.
  subst m. simpl. rewrite Hn. simpl.
  destruct (_key_for env d) as [k|e] eqn:Hk; simpl; [|discriminate].
  intros Hstep. exists k. split; [reflexivity|].
  assert (Hkeys' : map (_key_for env) (src ++ [d]) = map Ok (ks ++ [k])).
  { rewrite !map_app, Hkeys. simpl. now rewrite Hk. }
  split; [exact Hkeys'|].
  rewrite lookup_keyed in Hstep. rewrite distinct_snoc.
  destruct (existsb (String.eqb k) (distinct ks)) eqn:Hex.
  - assert (Hin : In k ks) by (now apply distinct_in, existsb_in).
    assert (Hex' : existsb (String.eqb k) ks = true) by now apply existsb_in.
    rewrite Hex'. injection Hstep as <-. simpl.
    rewrite assign_keyed; [|apply distinct_nodup | now apply distinct_in].
    apply map_ext_in. intros k0 Hk0. f_equal.
    rewrite filter_app. simpl. rewrite (has_key_own _ Hk).
    rewrite (String.eqb_sym k k0).
    destruct (String.eqb_spec k0 k) as [->|Hne].
    + rewrite coalesced_snoc; [reflexivity|].
      now apply (@filter_has_key_present src ks).
    + now rewrite app_nil_r.
  - assert (Hnotin : ~ In k ks).
    { intros H. apply distinct_in, existsb_in in H. congruence. }
    assert (Hex' : existsb (String.eqb k) ks = false).
    { destruct (existsb (String.eqb k) ks) eqn:E; [|reflexivity].
      apply existsb_in in E. contradiction. }
    rewrite Hex'.
    assert (Hmerged : merged st'
                      = assign k d
                          (map (fun k0 =>
                                  (k0, coalesced (filter (has_key env k0) src)))
                               (distinct ks))).
    { destruct (get "name" d); simpl in Hstep; try discriminate;
        now injection Hstep as <-. }
    rewrite Hmerged, assign_fresh by (rewrite lookup_keyed, Hex; reflexivity).
    rewrite map_app. simpl. f_equal.
    + apply map_ext_in. intros k0 Hk0. f_equal.
      rewrite filter_app. simpl. rewrite (has_key_own _ Hk).
      destruct (String.eqb_spec k k0) as [<-|Hne];
        [apply (proj1 (distinct_in _ _)) in Hk0; contradiction|].
      now rewrite app_nil_r.
    + rewrite filter_app, (@filter_has_key_absent src ks k) by assumption.
      simpl. rewrite (has_key_own _ Hk), String.eqb_refl. reflexivity.
Qed.

Lemma merge_list_dedup ds : forall st st' src ks,
  Forall named ds ->
  dedup_state src ks (merged st) ->
  merge_list env st (map VDict ds) = Ok st' ->
  exists ks', dedup_state (src ++ ds) (ks ++ ks') (merged st').
Proof.
  induction ds as [|d ds IH]; intros st st' src ks Hn Hst;
    cbn [map merge_list].
  - intros [= <-]. exists []. now rewrite !app_nil_r.
  - inversion Hn as [|? ? Hd Hds]; subst.
    destruct (merge_record env st (VDict d)) as [st1|e] eqn:Hstep;
      cbn [bind]; [|discriminate].
    intros Hrun.
    destruct (@merge_record_dedup st d st1 src ks Hd Hst Hstep) as (k & _ & Hst1).
    destruct (IH _ _ _ _ Hds Hst1 Hrun) as (ks' & Hst').
    exists (k :: ks'). now rewrite <- !app_assoc in Hst'.
Qed.

(** The merge of two lists of named records runs the loop over the one
    followed by the other. *)
Lemma merge_two_dedup_state (known members roster : list dict) :
  Forall named known -> Forall named members ->
  merge_known_speakers env [map VDict known; map VDict members] = Ok roster ->
  exists st ks,
    merge_list env {| merged := []; name_keyed := [] |}
      (map VDict known ++ map VDict members) = Ok st
    /\ roster = values (merged st)
    /\ dedup_state (known ++ members) ks (merged st).
Proof.
  intros Hk Hm. unfold merge_known_speakers. rewrite merge_sources_concat.
  simpl List.concat. rewrite app_nil_r.
  destruct (merge_list env _ _) as [st|e] eqn:Hrun; cbn [bind]; [|discriminate].
  intros [= <-].
  assert (Hall : Forall named (known ++ members))
    by (apply Forall_app; now split).
  assert (Hinit : dedup_state [] [] (merged {| merged := []; name_keyed := [] |}))
    by (split; reflexivity).
  pose proof Hrun as Hrun'. rewrite <- map_app in Hrun'.
  destruct (@merge_list_dedup (known ++ members) _ _ [] [] Hall Hinit Hrun')
    as (ks & Hst).
  now exists st, ks.
Qed.
End Dedup.

(** The value of a field in the record of one person: the value the first
    record has for it, also when that is [None]; otherwise the first value
    that is not [None] among the later records. *)
Fixpoint first_some (A : Type) (l : list (option A)) : option A :=
  match l with
  | [] => None
  | Some a :: _ => Some a
  | None :: rest => first_some rest
  end.

Lemma lookup_coalesced field ds : forall d,
  lookup field (coalesced (d :: ds)) =
  match lookup field d with
  | Some v => Some v
  | None => first_some (map (fun d' => lookup field (kept_fields d')) ds)
  end.
Proof.
  induction ds as [|d1 ds IH]; intros d.
  - simpl. now destruct (lookup field d).
  - change (coalesced (d :: d1 :: ds)) with (coalesced (merge_fields d d1 :: ds)).
    rewrite IH, lookup_merge_fields. simpl.
    destruct (lookup field d); [reflexivity|].
    now destruct (lookup field (kept_fields d1)).
Qed.

(** The loaders return named records only. *)
Lemma jsonl_rows_named env lines : forall rows,
  jsonl_rows env lines = Ok rows -> Forall named rows.
Proof.
  induction lines as [|raw lines IH]; intros rows; simpl.
  - intros [= <-]. constructor.
  - destruct (strip raw =? "")%string; [apply IH|].
    destruct (json_loads env (strip raw)) as [obj|]; [|apply IH].
    destruct obj as [| | | | | |d]; simpl; try discriminate.
    destruct (in_type_set (get "type" d)) as [is_person|e]; simpl;
      [|discriminate].
    destruct (jsonl_rows env lines) as [rest|e]; simpl; [|discriminate].
    specialize (IH _ eq_refl).
    destruct (is_person && truthy (get "name" d)) eqn:Hkeep; intros [= <-];
      [|assumption].
    constructor; [|assumption].
    apply andb_prop in Hkeep. apply Hkeep.
Qed.

Lemma named_dicts_all_named l : Forall named (named_dicts l).
Proof.
  apply Forall_forall. intros d Hin. now apply named_dicts_named in Hin.
Qed.

Lemma known_speakers_named env speakers_format speakers_path known :
  (if (lower speakers_format =? "jsonl")%string
   then load_known_speakers_from_jsonl env speakers_path
   else load_known_speakers_from_json env speakers_path) = Ok known ->
  Forall named known.
Proof.
  unfold load_known_speakers_from_jsonl, load_known_speakers_from_json.
  destruct (lower speakers_format =? "jsonl")%string;
    (destruct (open_read env speakers_path) as [text|e]; simpl; [|discriminate]).
  - apply jsonl_rows_named.
  - destruct (json_loads env text) as [[| | | | |data|]|]; try discriminate;
      intros [= <-]; try constructor.
    apply named_dicts_all_named.
Qed.

Lemma member_row_named key item : named item -> named (member_row key item).
Proof.
  unfold named, get. rewrite lookup_member_row.
  destruct (lookup "name" item); [trivial | discriminate].
Qed.

Lemma committee_members_named env path committee_id members :
  load_committee_members_from_unitedstates_file env path committee_id
  = Ok members ->
  Forall named members.
Proof.
  unfold load_committee_members_from_unitedstates_file.
  assert (Hrows : forall key l,
             Forall named (map (member_row key) (named_dicts l))).
  { intros key l. apply Forall_forall. intros row Hin.
    apply in_map_iff in Hin. destruct Hin as (item & <- & Hin).
    apply member_row_named. now apply named_dicts_named in Hin. }
  destruct (open_read env path) as [text|e]; simpl;
    [|intros [= <-]; constructor].
  destruct (json_loads env text) as [data|]; simpl;
    [|intros [= <-]; constructor].
  destruct data as [| | | | | |d]; try discriminate.
  destruct (get _ d) as [| | | | |raw|raw]; intros [= <-];
    try constructor; apply Hrows.
Qed.

(** C9. Let the transcript head and the speakers file load. When there is no
    committee path, or the committee loader returns no member, the run is the
    resolver's run on the loaded list as it is, duplicates included. When the
    loader returns members, the run is the resolver's run on the merge of the
    loaded list and the members, and that roster is the loaded list followed
    by the members with one record per identity key: for each key, in the
    order in which the keys first appear, the first record of the key with
    the fields its later records add. The identity keys of the roster are
    these keys, each once. If the merge raises, nothing is sent. *)
Theorem roster_merged_only_with_members (env : Env)
  (transcript_path speakers_path speakers_format : string)
  (committee_membership_path : option string) (committee_id : string)
  (max_lines K : Z) (model effort : string)
  (head : list string) (known members : list dict) :
  read_transcript_head env transcript_path max_lines = Ok head ->
  (if (lower speakers_format =? "jsonl")%string
   then load_known_speakers_from_jsonl env speakers_path
   else load_known_speakers_from_json env speakers_path) = Ok known ->
  match committee_membership_path with
  | Some p => load_committee_members_from_unitedstates_file env p committee_id
  | None => Ok []
  end = Ok members ->
  let summary := summarize_observed_speakers (parse_utterances head) K in
  let run_on roster :=
    resolve_speakers_via_llm env roster summary head model effort
      PrimFloat.zero in
  let r :=
    resolve_speakers_from_files env transcript_path speakers_path
      speakers_format committee_membership_path committee_id max_lines K
      model effort in
  (members = [] -> r = run_on known)
  /\ (members <> [] ->
      (forall roster,
         merge_known_speakers env [map VDict known; map VDict members]
         = Ok roster ->
         r = run_on roster
         /\ exists ks,
              map (_key_for env) (known ++ members) = map Ok ks
              /\ roster = deduplicated env (known ++ members) ks
              /\ NoDup (distinct ks)
              /\ (Forall dict_wf known -> Forall dict_wf members ->
                  map (_key_for env) roster = map Ok (distinct ks)))
      /\ (forall e,
         merge_known_speakers env [map VDict known; map VDict members]
         = Raise e ->
         r = {| issued := []; outcome := Raise e |})).
Proof.
  intros Hhead Hknown Hmembers summary run_on r.
  unfold r, resolve_speakers_from_files.
  rewrite Hhead. cbn [bind]. rewrite Hknown. cbn [bind].
  rewrite Hmembers. cbn [bind]. split.
  - intros ->. reflexivity.
  - intros Hne.
    assert (Hnk : Forall named known) by (eapply known_speakers_named; eassumption).
    assert (Hnm : Forall named members).
    { destruct committee_membership_path as [p|].
      - eapply committee_members_named; eassumption.
      - injection Hmembers as <-. constructor. }
    destruct members as [|m ms]; [contradiction|]. split.
    + intros roster Hmerge. rewrite Hmerge. split; [reflexivity|].
      destruct (@merge_two_dedup_state env known (m :: ms) roster Hnk Hnm Hmerge)
        as (st & ks & Hrun & -> & Hkeys & Hm).
      exists ks. split; [exact Hkeys|]. split.
      { rewrite Hm. unfold deduplicated. now rewrite values_keyed. }
      split; [apply distinct_nodup|].
      intros Hk Hms.
      assert (Hok : roster_ok env (merged st)).
      { eapply merge_list_roster_ok; [| |exact Hrun]; [|apply roster_ok_nil].
        apply source_wf_app; now apply source_wf_dicts. }
      rewrite (@roster_ok_keys env _ Hok), Hm, keys_keyed. reflexivity.
    + intros e Hmerge. now rewrite Hmerge.
Qed.

(** A small world: a one-line transcript, a witnesses file that lists the
    same person twice, and a committee file with one member. *)
Definition quoted (s : string) : string := (dq ++ s ++ dq)%string.

Definition witnesses_text : string :=
  ("[{" ++ quoted "name" ++ ": " ++ quoted "Jane Doe" ++ "}, {"
   ++ quoted "name" ++ ": " ++ quoted "Jane Doe" ++ "}]")%string.

Definition committee_text : string :=
  ("{" ++ quoted "HSAG" ++ ": [{" ++ quoted "name" ++ ": "
   ++ quoted "Rep. Smith" ++ ", " ++ quoted "bioguide" ++ ": "
   ++ quoted "S001" ++ "}]}")%string.

Definition jane : dict := [("name", VStr "Jane Doe")].
Definition smith : dict := [("name", VStr "Rep. Smith"); ("bioguide", VStr "S001")].

Definition env_demo : Env :=
  {| py_repr := fun _ => "";
     json_loads := fun s =>
       if (s =? witnesses_text)%string then Some (VList [VDict jane; VDict jane])
       else if (s =? committee_text)%string
            then Some (VDict [("HSAG", VList [VDict smith])])
            else None;
     json_dumps := fun _ => "";
     files := fun p =>
       if (p =? "transcript.txt")%string
       then Some ("[00:01:02 - 00:01:10] SPEAKER_A: Thank you, Chairman." ++ nl)%string
       else if (p =? "witnesses.json")%string then Some witnesses_text
       else if (p =? "committee.json")%string then Some committee_text
       else None;
     responses_create := fun _ => Ok (OObj [("output_text", OStr "not-json")]) |}.

Definition demo_head : list string :=
  ["[00:01:02 - 00:01:10] SPEAKER_A: Thank you, Chairman."].

(** The row the committee loader builds for the member. *)
Definition smith_member : dict :=
  [ ("name", VStr "Rep. Smith"); ("bioguide", VStr "S001");
    ("type", VStr "member"); ("committee_id", VStr "HSAG");
    ("chamber", VStr "house") ].

(** The names of the known speakers of a prompt payload, in order. *)
Definition names_line (payload : value) : string :=
  match payload with
  | VDict p =>
      match get "known_speakers" p with
      | VList l =>
          join ", "
            (map (fun v => match v with
                           | VDict d =>
                               match get "name" d with VStr n => n | _ => "?" end
                           | _ => "?"
                           end) l)
      | _ => ""
      end
  | _ => ""
  end.

(** The same world with a rendering of the payload that shows the names of
    the known speakers, so that the prompt tells two rosters apart. *)
Definition env_names : Env :=
  {| py_repr := py_repr env_demo;
     json_loads := json_loads env_demo;
     json_dumps := names_line;
     files := files env_demo;
     responses_create := responses_create env_demo |}.

(** Without a committee file both copies of the record reach the resolver;
    with it the two copies are one record, followed by the member. *)
Lemma roster_merged_only_with_members_witness :
  resolve_speakers_from_files env_names "transcript.txt" "witnesses.json" "json"
    None "HSAG" 300 3 "gpt-5" "medium"
  = resolve_speakers_via_llm env_names [jane; jane]
      (summarize_observed_speakers (parse_utterances demo_head) 3) demo_head
      "gpt-5" "medium" PrimFloat.zero
  /\ resolve_speakers_from_files env_names "transcript.txt" "witnesses.json"
       "json" (Some "committee.json") "hsag" 300 3 "gpt-5" "medium"
     = resolve_speakers_via_llm env_names [jane; smith_member]
         (summarize_observed_speakers (parse_utterances demo_head) 3) demo_head
         "gpt-5" "medium" PrimFloat.zero
  /\ [jane; smith_member]
     = deduplicated env_names ([jane; jane] ++ [smith_member])
         ["name:jane doe"; "name:jane doe"; "bioguide:S001"].
Proof.
  split; [|split].
  - apply (proj1 (@roster_merged_only_with_members env_names "transcript.txt"
                    "witnesses.json" "json" None "HSAG" 300 3 "gpt-5" "medium"
                    demo_head [jane; jane] [] eq_refl eq_refl eq_refl)).
    reflexivity.
  - destruct (proj2 (@roster_merged_only_with_members env_names
                       "transcript.txt" "witnesses.json" "json"
                       (Some "committee.json") "hsag" 300 3 "gpt-5" "medium"
                       demo_head [jane; jane] [smith_member]
                       eq_refl eq_refl eq_refl) ltac:(discriminate))
      as [Hok _].
    exact (proj1 (Hok [jane; smith_member] eq_refl)).
  - reflexivity.
Defined.

(** The prompts of the two runs: the duplicate is in the one without the
    committee file and not in the other. *)
Example duplicates_reach_the_prompt_only_without_members :
  map (fun req => map content (req_input req))
    (issued (resolve_speakers_from_files env_names "transcript.txt"
               "witnesses.json" "json" None "HSAG" 300 3 "gpt-5" "medium"))
  = [[system_prompt; (guidance ++ nl ++ nl ++ "Jane Doe, Jane Doe")%string]]
  /\ map (fun req => map content (req_input req))
       (issued (resolve_speakers_from_files env_names "transcript.txt"
                  "witnesses.json" "json" (Some "committee.json") "hsag" 300 3
                  "gpt-5" "medium"))
     = [[system_prompt; (guidance ++ nl ++ nl ++ "Jane Doe, Rep. Smith")%string]].
Proof. split; reflexivity. Qed.

(** Three sources for the associativity of the merge: the second adds a field
    to a record of the first, the third brings a record of its own. *)
Lemma merge_known_speakers_assoc_witness :
  merge_known_speakers env_offline
    [ [VDict smith]; [VDict [("bioguide", VStr "S001"); ("party", VStr "majority")];
                      VDict [("name", VStr "Rep. Smith"); ("bioguide", VStr "S001");
                             ("rank", VInt 1)]];
      [VDict jane] ]
  = (AB <- merge_known_speakers env_offline
             [ [VDict smith];
               [VDict [("bioguide", VStr "S001"); ("party", VStr "majority")];
                VDict [("name", VStr "Rep. Smith"); ("bioguide", VStr "S001");
                       ("rank", VInt 1)]] ] ;;
     merge_known_speakers env_offline [map VDict AB; [VDict jane]]).
Proof.
  apply merge_known_speakers_assoc.
  - intros d [[= <-]|[]]. repeat constructor; simpl; intuition discriminate.
  - intros d [[= <-]|[[= <-]|[]]]; repeat constructor; simpl; intuition discriminate.
Defined.

(** ** The line grammar *)

(** What a regular expression matches, read off its syntax: [denote whole r s
    s'] says that [r] consumes a prefix of [s] and leaves [s'], in a subject
    [whole]. *)
Fixpoint denote (whole : string) (r : regex) (s s' : string) : Prop :=
  match r with
  | Bol => String.length s = String.length whole /\ s' = s
  | Eol => (s = "" \/ s = nl) /\ s' = s
  | Str lit => s = (lit ++ s')%string
  | Class p => exists c, s = String c s' /\ p c = true
  | Rep n p =>
      exists w, s = (w ++ s')%string /\ String.length w = n
                /\ all_chars p w = true
  | Star p => exists w, s = (w ++ s')%string /\ all_chars p w = true
  | Plus p =>
      exists w, s = (w ++ s')%string /\ all_chars p w = true /\ w <> ""
  | Cat r1 r2 => exists m, denote whole r1 s m /\ denote whole r2 m s'
  | Group _ r => denote whole r s s'
  end.

(** A continuation that succeeds at [s'] whatever was captured. *)
Definition succeeds_at (k : cont) (s' : string) : Prop :=
  forall caps, k s' caps <> None.

Lemma str_go_sound lit : forall k s caps m,
  str_go lit k s caps = Some m ->
  exists s', s = (lit ++ s')%string /\ k s' caps = Some m.
Proof.
  induction lit as [|a lit IH]; intros k s caps m; simpl.
  - intros H. now exists s.
  - destruct s as [|c s]; [discriminate|].
    destruct (Ascii.eqb_spec a c) as [->|]; [|discriminate].
    intros H. destruct (IH _ _ _ _ H) as (s' & -> & Hk). now exists s'.
Qed.

Lemma str_go_complete lit : forall k s' caps,
  succeeds_at k s' -> str_go lit k (lit ++ s')%string caps <> None.
Proof.
  induction lit as [|a lit IH]; intros k s' caps Hk; simpl.
  - apply Hk.
  - rewrite Ascii.eqb_refl. now apply IH.
Qed.

Lemma rep_go_sound n p : forall k s caps m,
  rep_go n p k s caps = Some m ->
  exists w s', s = (w ++ s')%string /\ String.length w = n
               /\ all_chars p w = true /\ k s' caps = Some m.
Proof.
  induction n as [|n IH]; intros k s caps m; simpl.
  - intros H. now exists "", s.
  - destruct s as [|c s]; [discriminate|].
    destruct (p c) eqn:Hc; [|discriminate].
    intros H. destruct (IH _ _ _ _ H) as (w & s' & -> & Hl & Hw & Hk).
    exists (String c w), s'. simpl. now rewrite Hl, Hc, Hw.
Qed.

Lemma rep_go_complete p w : forall k s' caps,
  all_chars p w = true -> succeeds_at k s' ->
  rep_go (String.length w) p k (w ++ s')%string caps <> None.
Proof.
  induction w as [|c w IH]; intros k s' caps Hw Hk; simpl.
  - apply Hk.
  - simpl in Hw. apply andb_prop in Hw. destruct Hw as [-> Hw]. now apply IH.
Qed.

Lemma star_go_sound p k : forall s caps m,
  star_go p k s caps = Some m ->
  exists w s', s = (w ++ s')%string /\ all_chars p w = true
               /\ k s' caps = Some m.
Proof.
  induction s as [|c s IH]; intros caps m; simpl.
  - intros H. now exists "", "".
  - destruct (p c) eqn:Hc.
    + destruct (star_go p k s caps) as [m'|] eqn:Hs.
      * intros [= <-]. destruct (IH _ _ Hs) as (w & s' & -> & Hw & Hk).
        exists (String c w), s'. simpl. now rewrite Hc, Hw.
      * intros H. now exists "", (String c s).
    + intros H. now exists "", (String c s).
Qed.

Lemma star_go_complete p k w : forall s' caps,
  all_chars p w = true -> succeeds_at k s' ->
  star_go p k (w ++ s')%string caps <> None.
Proof.
  induction w as [|c w IH]; intros s' caps Hw Hk; simpl.
  - destruct s' as [|c s']; simpl; [apply Hk|].
    destruct (p c); [|apply Hk].
    destruct (star_go p k s' caps); [discriminate | apply Hk].
  - simpl in Hw. apply andb_prop in Hw. destruct Hw as [-> Hw].
    specialize (IH s' caps Hw Hk).
    destruct (star_go p k (w ++ s')%string caps); [discriminate | contradiction].
Qed.

(** The matcher finds a match only where the expression has one. *)
Lemma re_go_sound whole r : forall k s caps m,
  re_go whole r k s caps = Some m ->
  exists s' caps', denote whole r s s' /\ k s' caps' = Some m.
Proof.
  induction r as [| |lit|p|n p|p|p|r1 IH1 r2 IH2|name r IH];
    intros k s caps m; simpl.
  - destruct (Nat.eqb_spec (String.length s) (String.length whole));
      [|discriminate].
    intros H. now exists s, caps.
  - destruct (String.eqb_spec s "") as [->|H1]; simpl.
    + intros H. exists "", caps. auto.
    + destruct (String.eqb_spec s nl) as [->|H2]; [|discriminate].
      intros H. exists nl, caps. auto.
  - intros H. destruct (str_go_sound _ _ _ _ H) as (s' & -> & Hk).
    now exists s', caps.
  - destruct s as [|c s]; [discriminate|].
    destruct (p c) eqn:Hc; [|discriminate].
    intros H. exists s, caps. split; [now exists c | assumption].
  - intros H. destruct (rep_go_sound _ _ _ _ _ H) as (w & s' & -> & Hl & Hw & Hk).
    exists s', caps. split; [now exists w | assumption].
  - intros H. destruct (star_go_sound _ _ _ _ H) as (w & s' & -> & Hw & Hk).
    exists s', caps. split; [now exists w | assumption].
  - destruct s as [|c s]; [discriminate|].
    destruct (p c) eqn:Hc; [|discriminate].
    intros H. destruct (star_go_sound _ _ _ _ H) as (w & s' & -> & Hw & Hk).
    exists s', caps. split; [|assumption].
    exists (String c w). simpl. rewrite Hc, Hw. repeat split. discriminate.
  - intros H. destruct (IH1 _ _ _ _ H) as (s1 & caps1 & H1 & Hk1).
    destruct (IH2 _ _ _ _ Hk1) as (s2 & caps2 & H2 & Hk2).
    exists s2, caps2. split; [now exists s1 | assumption].
  - intros H. destruct (IH _ _ _ _ H) as (s' & caps' & Hd & Hk).
    exists s'. eexists. split; [exact Hd | exact Hk].
Qed.

(** Backtracking loses no match: where the expression has one and the rest of
    the pattern succeeds after it, the matcher succeeds. *)
Lemma re_go_complete whole r : forall k s s' caps,
  denote whole r s s' -> succeeds_at k s' ->
  re_go whole r k s caps <> None.
Proof.
  induction r as [| |lit|p|n p|p|p|r1 IH1 r2 IH2|name r IH];
    intros k s s' caps; simpl.
  - intros [Hl ->] Hk. rewrite Hl, Nat.eqb_refl. apply Hk.
  - intros [[->| ->] ->] Hk; simpl; apply Hk.
  - intros -> Hk. now apply str_go_complete.
  - intros (c & -> & Hc) Hk. rewrite Hc. apply Hk.
  - intros (w & -> & <- & Hw) Hk. now apply rep_go_complete.
  - intros (w & -> & Hw) Hk. now apply star_go_complete.
  - intros (w & -> & Hw & Hne) Hk. destruct w as [|c w]; [contradiction|].
    simpl in *. apply andb_prop in Hw. destruct Hw as [-> Hw].
    now apply star_go_complete.
  - intros (m & H1 & H2) Hk. apply (IH1 _ _ m); [assumption|].
    intros caps'. now apply (IH2 _ _ s').
  - intros Hd Hk. apply (IH _ _ s'); [assumption|].
    intros caps'. apply Hk.
Qed.

(** [r.match(s)] succeeds exactly when [r] matches a prefix of [s]. *)
Lemma re_match_denote r s :
  re_match r s <> None <-> exists s', denote s r s s'.
Proof.
  unfold re_match. split.
  - destruct (re_go s r _ s []) as [m|] eqn:H; [|congruence].
    intros _. destruct (re_go_sound _ _ _ _ _ H) as (s' & _ & Hd & _).
    now exists s'.
  - intros [s' Hd]. eapply re_go_complete; [exact Hd|]. intros caps. discriminate.
Qed.

(** The grammar [[<start> - <end>] <label>: <text>] in the words of the
    specification, for a rule [label_ok] on what follows [SPEAKER_]. *)

Definition blank (s : string) : Prop := all_chars is_space s = true.

(** [HH:MM:SS] *)
Definition hms_text (s : string) : Prop :=
  exists h1 h2 m1 m2 s1 s2,
    s = String h1 (String h2 (String ":" (String m1 (String m2
          (String ":" (String s1 (String s2 "")))))))
    /\ is_digit h1 = true /\ is_digit h2 = true
    /\ is_digit m1 = true /\ is_digit m2 = true
    /\ is_digit s1 = true /\ is_digit s2 = true.

(** The text runs to the end of the line: blanks, then characters other than
    a line feed, then the end of the subject or its final line feed. *)
Definition text_to_line_end (tail : string) : Prop :=
  exists ws body eol,
    tail = (ws ++ body ++ eol)%string
    /\ blank ws /\ all_chars not_newline body = true
    /\ (eol = "" \/ eol = nl).

Definition one_or_more_upper (suffix : string) : bool :=
  negb (suffix =? "")%string && all_chars is_upper suffix.

Definition exactly_one_upper (suffix : string) : bool :=
  match suffix with
  | String c EmptyString => is_upper c
  | _ => false
  end.

Definition line_grammar (label_ok : string -> bool) (line : string) : Prop :=
  exists start ws1 ws2 end_ ws3 suffix tail,
    line = ("[" ++ start ++ ws1 ++ "-" ++ ws2 ++ end_ ++ "]" ++ ws3
            ++ "SPEAKER_" ++ suffix ++ ":" ++ tail)%string
    /\ hms_text start /\ hms_text end_
    /\ blank ws1 /\ blank ws2 /\ blank ws3 /\ ws3 <> ""
    /\ label_ok suffix = true
    /\ text_to_line_end tail.

Lemma parse_single_line line :
  parse_utterances [line] <> [] <-> re_match SPEAKER_LINE_RE line <> None.
Proof.
  unfold parse_utterances. simpl.
  destruct (re_match SPEAKER_LINE_RE line); split; congruence.
Qed.

Lemma denote_hms whole s s' :
  denote whole hms s s' <-> exists t, hms_text t /\ s = (t ++ s')%string.
Proof.
  unfold hms. simpl. split.
  - intros (m1 & (w1 & -> & L1 & D1) & m2 & -> & m3 & (w2 & -> & L2 & D2)
            & m4 & -> & (w3 & -> & L3 & D3)).
    destruct w1 as [|a1 [|b1 [|]]]; try discriminate.
    destruct w2 as [|a2 [|b2 [|]]]; try discriminate.
    destruct w3 as [|a3 [|b3 [|]]]; try discriminate.
    simpl in *.
    repeat match goal with
           | H : _ && _ = true |- _ => apply andb_prop in H; destruct H
           end.
    exists (String a1 (String b1 (String ":" (String a2 (String b2
              (String ":" (String a3 (String b3 "")))))))).
    split; [|reflexivity].
    exists a1, b1, a2, b2, a3, b3. repeat split; assumption.
  - intros (t & (h1 & h2 & m1 & m2 & s1 & s2 & -> & H1 & H2 & H3 & H4 & H5 & H6)
            & ->).
    eexists. split; [exists (String h1 (String h2 "")); repeat split|].
    { simpl. now rewrite H1, H2. }
    eexists. split; [reflexivity|].
    eexists. split; [exists (String m1 (String m2 "")); repeat split|].
    { simpl. now rewrite H3, H4. }
    eexists. split; [reflexivity|].
    exists (String s1 (String s2 "")). repeat split.
    simpl. now rewrite H5, H6.
Qed.

(** The expression of the source and the grammar with a one-letter label
    describe the same lines. *)
Lemma denote_speaker_line line :
  (exists s', denote line SPEAKER_LINE_RE line s')
  <-> line_grammar exactly_one_upper line.
Proof.
  unfold SPEAKER_LINE_RE, line_grammar. cbn [denote]. split.
  - intros (s' & m & [_ ->] & m0 & Hline & m1 & Hstart & m2 & (w1 & -> & Hw1)
            & m3 & -> & m4 & (w2 & -> & Hw2) & m5 & Hend & m6 & ->
            & m7 & (w3 & -> & Hw3 & Hne3)
            & m8 & (m8' & -> & c & -> & Hc) & m9 & ->
            & m10 & (w4 & -> & Hw4) & m11 & (w5 & -> & Hw5) & Heol & ->).
    destruct (proj1 (denote_hms _ _ _) Hstart) as (t1 & Ht1 & ->).
    destruct (proj1 (denote_hms _ _ _) Hend) as (t2 & Ht2 & ->).
    exists t1, w1, w2, t2, w3, (String c ""), (w4 ++ w5 ++ m11)%string.
    split; [exact Hline|].
    repeat (split; [assumption|]).
    exists w4, w5, m11. repeat split; assumption.
  - intros (start & ws1 & ws2 & end_ & ws3 & suffix & tail & -> & Hs & He
            & H1 & H2 & H3 & Hne & Hlabel & ws & body & eol & -> & Hws & Hbody
            & Heol).
    destruct suffix as [|c [|]]; try discriminate. simpl in Hlabel.
    exists eol. eexists. split; [split; reflexivity|].
    eexists. split; [reflexivity|].
    eexists. split; [apply denote_hms; exists start; split; [assumption | reflexivity]|].
    eexists. split; [exists ws1; split; [reflexivity | assumption]|].
    eexists. split; [reflexivity|].
    eexists. split; [exists ws2; split; [reflexivity | assumption]|].
    eexists. split; [apply denote_hms; exists end_; split; [assumption | reflexivity]|].
    eexists. split; [reflexivity|].
    eexists. split; [exists ws3; split; [reflexivity | split; assumption]|].
    eexists. split; [eexists; split; [reflexivity|]; exists c; split; [reflexivity | assumption]|].
    eexists. split; [reflexivity|].
    eexists. split; [exists ws; split; [reflexivity | assumption]|].
    eexists. split; [exists body; split; [reflexivity | assumption]|].
    split; [assumption | reflexivity].
Qed.

(** The reading of C4 as it is written: a line is accepted exactly when it
    follows the grammar with a label of one or more uppercase letters. *)
Definition accepts_grammar_with (label_ok : string -> bool) (line : string)
  : Prop :=
  parse_utterances [line] <> [] <-> line_grammar label_ok line.

Definition line_with_two_letters : string :=
  "[00:01:02 - 00:01:10] SPEAKER_AB: Thank you, Chairman.".

(** A line labelled [SPEAKER_AB] follows that grammar and is not accepted. *)
Lemma two_letter_label_is_rejected :
  ~ accepts_grammar_with one_or_more_upper line_with_two_letters.
Proof.
  intros [_ H]. apply H; [|reflexivity].
  exists "00:01:02", " ", " ", "00:01:10", " ", "AB", " Thank you, Chairman.".
  split; [reflexivity|].
  split; [exists "0"%char, "0"%char, "0"%char, "1"%char, "0"%char, "2"%char;
          repeat split|].
  split; [exists "0"%char, "0"%char, "0"%char, "1"%char, "1"%char, "0"%char;
          repeat split|].
  repeat (split; [reflexivity || discriminate|]).
  exists " ", "Thank you, Chairman.", "". repeat split. now left.
Qed.

Definition two_or_more_upper (suffix : string) : bool :=
  (2 <=? String.length suffix) && all_chars is_upper suffix.

Lemma digit_not_space c : is_digit c = true -> is_space c = false.
Proof.
  unfold is_digit, is_space, between. intros H.
  apply andb_prop in H. destruct H as [H _]. apply Nat.leb_le in H.
  repeat rewrite orb_false_iff. repeat split.
  - apply andb_false_iff. right. apply Nat.leb_gt. lia.
  - apply andb_false_iff. right. apply Nat.leb_gt. lia.
  - apply Nat.eqb_neq. lia.
Qed.

(** A run of blanks that ends before a character that is not blank is
    determined by the text. *)
Lemma blank_prefix_unique w : forall w' c c' r r',
  blank w -> blank w' ->
  is_space c = false -> is_space c' = false ->
  (w ++ String c r = w' ++ String c' r')%string ->
  w = w' /\ String c r = String c' r'.
Proof.
  unfold blank.
  induction w as [|x w IH]; intros [|x' w'] c c' r r' Hw Hw' Hc Hc'; simpl.
  - now intros E.
  - intros [= -> _]. simpl in Hw'. apply andb_prop in Hw'. destruct Hw'. congruence.
  - intros [= -> _]. simpl in Hw. apply andb_prop in Hw. destruct Hw. congruence.
  - intros [= -> E]. simpl in Hw, Hw'.
    apply andb_prop in Hw, Hw'. destruct Hw as [_ Hw], Hw' as [_ Hw'].
    destruct (IH _ _ _ _ _ Hw Hw' Hc Hc' E) as [-> E']. now split.
Qed.

(** A label of two or more letters leaves a letter where the expression wants
    the colon. *)
Lemma longer_label_is_rejected line :
  line_grammar two_or_more_upper line -> parse_utterances [line] = [].
Proof.
  intros (t1 & w1 & w2 & t2 & w3 & suffix & tail & E & Ht1 & Ht2 & Hw1 & Hw2
          & Hw3 & _ & Hlabel & _).
  destruct (parse_utterances [line]) as [|u us] eqn:Hparse; [reflexivity|].
  exfalso.
  assert (Hacc : parse_utterances [line] <> []) by (rewrite Hparse; discriminate).
  rewrite parse_single_line, re_match_denote, denote_speaker_line in Hacc.
  destruct Hacc as (t1' & w1' & w2' & t2' & w3' & suffix' & tail' & E' & Ht1'
                    & Ht2' & Hw1' & Hw2' & Hw3' & _ & Hlabel' & _).
  destruct suffix' as [|c [|]]; try discriminate.
  destruct suffix as [|a [|b suffix]]; try discriminate.
  unfold two_or_more_upper in Hlabel. simpl in Hlabel.
  apply andb_prop in Hlabel. destruct Hlabel as [_ Hb].
  apply andb_prop in Hb. destruct Hb as [Hb _].
  destruct Ht1 as (a1 & a2 & a3 & a4 & a5 & a6 & -> & _).
  destruct Ht1' as (b1 & b2 & b3 & b4 & b5 & b6 & -> & _).
  destruct Ht2 as (c1 & c2 & c3 & c4 & c5 & c6 & -> & Hc1 & _).
  destruct Ht2' as (d1 & d2 & d3 & d4 & d5 & d6 & -> & Hd1 & _).
  rewrite E in E'. simpl in E'. injection E' as _ _ _ _ _ _ E'.
  apply blank_prefix_unique in E'; try assumption; try reflexivity.
  destruct E' as [_ E']. injection E' as E'.
  apply blank_prefix_unique in E'; try assumption; try now apply digit_not_space.
  destruct E' as [_ E']. injection E' as _ _ _ _ _ _ E'.
  apply blank_prefix_unique in E'; try assumption; try reflexivity.
  destruct E' as [_ E']. injection E' as _ Hcolon _.
  subst b. discriminate Hb.
Qed.

(** A text of ASCII characters. On these the classes of the regular
    expression are the tables [is_space] and [is_digit]; beyond them Python
    counts further characters as whitespace and as digits. *)
Definition ascii_text (s : string) : Prop :=
  all_chars (fun c => code c <? 128) s = true.

(** C4, amended. A line that follows the grammar
    [[<start> - <end>] <label>: <text>] from its first character to its end,
    with [<start>] and [<end>] of the form [HH:MM:SS] and [<label>] being
    [SPEAKER_] followed by exactly one uppercase letter, is accepted by the
    parser, that is it gives an utterance; a line of ASCII characters is
    accepted only when it follows this grammar; and a line whose label is
    [SPEAKER_] followed by two or more uppercase letters is not accepted. *)
Theorem parser_accepts_exactly_the_grammar (line : string) :
  (line_grammar exactly_one_upper line -> parse_utterances [line] <> [])
  /\ (ascii_text line ->
      (parse_utterances [line] <> [] <-> line_grammar exactly_one_upper line))
  /\ (line_grammar two_or_more_upper line -> parse_utterances [line] = []).
Proof.
  assert (H : parse_utterances [line] <> []
              <-> line_grammar exactly_one_upper line).
  { rewrite parse_single_line, re_match_denote. apply denote_speaker_line. }
  split; [apply H|]. split; [intros _; exact H|].
  apply longer_label_is_rejected.
Qed.

Definition line_with_one_letter : string :=
  "[00:01:02 - 00:01:10] SPEAKER_A: Thank you, Chairman.".

(** An accepted line of ASCII characters follows the grammar. *)
Lemma parser_accepts_exactly_the_grammar_witness :
  ascii_text line_with_one_letter
  /\ parse_utterances [line_with_one_letter] <> []
  /\ line_grammar exactly_one_upper line_with_one_letter.
Proof.
  assert (Hascii : ascii_text line_with_one_letter) by reflexivity.
  assert (Hacc : parse_utterances [line_with_one_letter] <> [])
    by (vm_compute; discriminate).
  split; [exact Hascii|]. split; [exact Hacc|].
  exact (proj1 (proj1 (proj2 (parser_accepts_exactly_the_grammar
                                line_with_one_letter)) Hascii) Hacc).
Defined.

(* ================================================================== *)
(** * Part III. Further properties of the resolver module               *)
(* ================================================================== *)

(** ** The merged roster *)

(** X1. Merging a merged roster again gives the same roster: the records, in
    the same order, with the same fields. *)
Theorem merge_known_speakers_idempotent (env : Env)
  (sources : list (list value)) (roster : list dict) :
  Forall source_wf sources ->
  merge_known_speakers env sources = Ok roster ->
  merge_known_speakers env [map VDict roster] = Ok roster.
Proof.
  intros Hwf. unfold merge_known_speakers. rewrite !merge_sources_concat.
  destruct (merge_list env _ (List.concat sources)) as [st|e] eqn:Hrun;
    cbn [bind]; [|discriminate].
  intros [= <-].
  assert (Hok : roster_ok env (merged st)).
  { eapply merge_list_roster_ok; [| |exact Hrun]; [|apply roster_ok_nil].
    intros d Hin. apply in_concat in Hin. destruct Hin as (lst & Hl & Hd).
    rewrite Forall_forall in Hwf. exact (Hwf lst Hl d Hd). }
  destruct (@merge_list_replay env (merged st) [] [] Hok) as [nk' Hreplay].
  simpl List.concat. rewrite app_nil_r. simpl app in Hreplay.
  rewrite Hreplay. reflexivity.
Qed.

Lemma merge_known_speakers_idempotent_witness :
  merge_known_speakers env_offline
    [map VDict [[("name", VStr "Jane Doe"); ("party", VStr "majority")]]]
  = Ok [[("name", VStr "Jane Doe"); ("party", VStr "majority")]].
Proof.
  apply (@merge_known_speakers_idempotent env_offline
           [[VDict jane]; [VDict [("name", VStr " jane doe ");
                                  ("party", VStr "majority")]]]).
  - repeat constructor; intros d [[= <-]|[]];
      repeat constructor; simpl; intuition discriminate.
  - reflexivity.
Defined.

(** X2. In a merged roster the identity keys of the records are pairwise
    distinct, and every record has a name that is a string and is not
    empty. *)
Theorem merged_roster_keys_and_names (env : Env)
  (sources : list (list value)) (roster : list dict) :
  Forall source_wf sources ->
  merge_known_speakers env sources = Ok roster ->
  (exists ks, NoDup ks /\ map (_key_for env) roster = map Ok ks)
  /\ Forall (fun r => exists n, get "name" r = VStr n /\ n <> "") roster.
Proof.
  intros Hwf Hmerge. split.
  - eapply merge_known_speakers_keys_distinct; eassumption.
  - revert Hmerge. unfold merge_known_speakers. rewrite merge_sources_concat.
    destruct (merge_list env _ _) as [st|e] eqn:Hrun; cbn [bind]; [|discriminate].
    intros [= <-].
    assert (Hok : roster_ok env (merged st)).
    { eapply merge_list_roster_ok; [| |exact Hrun]; [|apply roster_ok_nil].
      intros d Hin. apply in_concat in Hin. destruct Hin as (lst & Hl & Hd).
      rewrite Forall_forall in Hwf. exact (Hwf lst Hl d Hd). }
    destruct Hok as [_ Hrec]. apply Forall_forall. intros r Hin.
    unfold values in Hin. apply in_map_iff in Hin.
    destruct Hin as ([k r'] & <- & Hin). simpl.
    exact (proj2 (Hrec k r' Hin)).
Qed.

Lemma merged_roster_keys_and_names_witness :
  Forall (fun r => exists n, get "name" r = VStr n /\ n <> "")
    [jane_with_bioguide; jane_with_party].
Proof.
  apply (@merged_roster_keys_and_names env_offline
           [[VDict jane_with_bioguide]; [VDict jane_with_party]]).
  - repeat constructor; intros d [[= <-]|[]];
      repeat constructor; simpl; intuition discriminate.
  - reflexivity.
Defined.

Lemma lookup_kept_fields_wf key d :
  dict_wf d ->
  lookup key (kept_fields d) =
  match lookup key d with
  | Some v => if is_none v then None else Some v
  | None => None
  end.
Proof.
  unfold dict_wf.
  induction d as [|[k0 v0] d IH]; simpl; [reflexivity|].
  intros Hnd. inversion Hnd as [|? ? Hnotin Hnd']; subst.
  destruct (String.eqb_spec key k0) as [->|Hne].
  - destruct (is_none v0) eqn:Hv; simpl.
    + destruct (lookup k0 (kept_fields d)) as [v|] eqn:Hk; [|reflexivity].
      exfalso. apply Hnotin. apply lookup_some_in in Hk.
      apply filter_In in Hk. destruct Hk as [Hk _].
      apply (in_map fst) in Hk. exact Hk.
    + now rewrite String.eqb_refl.
  - destruct (is_none v0); simpl.
    + now apply IH.
    + destruct (String.eqb_spec key k0); [contradiction | now apply IH].
Qed.

(** X3. Two records with the same identity key merge into one record. A field
    of the first record keeps its value, also when that value is [None]; a
    field that only the second record has is added when its value is not
    [None], and left out when it is [None]. *)
Theorem merge_same_key_fields (env : Env) (r1 r2 : dict) (k n1 : string) :
  dict_wf r2 ->
  _key_for env r1 = Ok k -> _key_for env r2 = Ok k ->
  get "name" r1 = VStr n1 -> n1 <> "" ->
  truthy (get "name" r2) = true ->
  exists m,
    merge_known_speakers env [[VDict r1]; [VDict r2]] = Ok [m]
    /\ (forall f v, lookup f r1 = Some v -> lookup f m = Some v)
    /\ (forall f v, lookup f r1 = None -> lookup f r2 = Some v ->
                    v <> VNone -> lookup f m = Some v)
    /\ (forall f, lookup f r1 = None -> lookup f r2 = Some VNone ->
                  lookup f m = None)
    /\ (forall f, lookup f r1 = None -> lookup f r2 = None ->
                  lookup f m = None).
Proof.
  intros Hwf Hk1 Hk2 Hn1 Hne Hn2.
  exists (merge_fields r1 r2). split.
  - unfold merge_known_speakers. simpl. rewrite Hn1. simpl.
    destruct (n1 =? "")%string eqn:E; [apply String.eqb_eq in E; contradiction|].
    simpl. rewrite Hk1. simpl. rewrite Hn2. simpl. rewrite Hk2. simpl.
    rewrite String.eqb_refl. reflexivity.
  - repeat split.
    + intros f v H. now rewrite lookup_merge_fields, H.
    + intros f v H1 H2 Hv. rewrite lookup_merge_fields, H1.
      rewrite lookup_kept_fields_wf, H2 by assumption.
      destruct v; simpl; congruence.
    + intros f H1 H2. rewrite lookup_merge_fields, H1.
      now rewrite lookup_kept_fields_wf, H2.
    + intros f H1 H2. rewrite lookup_merge_fields, H1.
      now rewrite lookup_kept_fields_wf, H2.
Qed.

Lemma merge_same_key_fields_witness :
  exists m,
    merge_known_speakers env_offline
      [ [VDict [("name", VStr "Jane Doe"); ("party", VNone)]];
        [VDict [("name", VStr "JANE DOE"); ("party", VStr "majority");
                ("rank", VInt 2)]] ] = Ok [m]
    /\ lookup "party" m = Some VNone
    /\ lookup "rank" m = Some (VInt 2).
Proof.
  destruct (@merge_same_key_fields env_offline
              [("name", VStr "Jane Doe"); ("party", VNone)]
              [("name", VStr "JANE DOE"); ("party", VStr "majority");
               ("rank", VInt 2)] "name:jane doe" "Jane Doe")
    as (m & Hm & Hkeep & Hadd & _);
    [repeat constructor; simpl; intuition discriminate
    | reflexivity | reflexivity | reflexivity | discriminate | reflexivity |].
  exists m. split; [exact Hm|]. split.
  - apply Hkeep. reflexivity.
  - apply Hadd; [reflexivity | reflexivity | discriminate].
Defined.

(** A named entry whose name is not a string is the only thing the merge can
    fail on. *)
Definition names_are_strings (lst : list value) : Prop :=
  forall d, In (VDict d) lst -> truthy (get "name" d) = true ->
            exists n, get "name" d = VStr n.

Lemma merge_record_raises_attribute_error env st d e :
  merge_record env st d = Raise e -> e = AttributeError.
Proof.
  destruct d as [| | | | |l|r]; simpl; try discriminate.
  destruct (truthy (get "name" r)); simpl; [|discriminate].
  unfold _key_for.
  destruct (truthy (get "bioguide" r)); simpl.
  - destruct (lookup _ (merged st)); [discriminate|].
    destruct (get "name" r); congruence.
  - destruct (or_else (get "name" r) (VStr "")); simpl; try congruence.
    destruct (lookup _ (merged st)); [discriminate|].
    destruct (get "name" r); congruence.
Qed.

Lemma merge_record_ok_on_string_name env st d :
  (forall r, d = VDict r -> truthy (get "name" r) = true ->
             exists n, get "name" r = VStr n) ->
  exists st', merge_record env st d = Ok st'.
Proof.
  intros H. destruct d as [| | | | |l|r]; simpl; try (eexists; reflexivity).
  destruct (truthy (get "name" r)) eqn:Hn; simpl; [|eexists; reflexivity].
  destruct (H r eq_refl Hn) as [n Hname].
  unfold _key_for, or_else. rewrite Hn, Hname.
  destruct (truthy (get "bioguide" r)); simpl;
    destruct (lookup _ (merged st)); eexists; reflexivity.
Qed.

(** X4. The merge raises nothing but [AttributeError], and it returns a roster
    whenever the name of every named entry of the sources is a string. *)
Theorem merge_known_speakers_failures (env : Env) (sources : list (list value)) :
  (forall e, merge_known_speakers env sources = Raise e -> e = AttributeError)
  /\ (Forall names_are_strings sources ->
      exists roster, merge_known_speakers env sources = Ok roster).
Proof.
  unfold merge_known_speakers. rewrite merge_sources_concat.
  generalize {| merged := []; name_keyed := [] |}.
  assert (Hraise : forall lst st e,
             merge_list env st lst = Raise e -> e = AttributeError).
  { induction lst as [|d lst IH]; intros st e; simpl; [discriminate|].
    destruct (merge_record env st d) as [st1|e1] eqn:Hstep; simpl.
    - apply IH.
    - intros [= <-]. eapply merge_record_raises_attribute_error; eassumption. }
  assert (Hok : forall lst st, names_are_strings lst ->
                               exists st', merge_list env st lst = Ok st').
  { induction lst as [|d lst IH]; intros st Hs; simpl; [now exists st|].
    destruct (@merge_record_ok_on_string_name env st d) as [st1 ->].
    - intros r -> Hn. apply Hs; [now left | assumption].
    - simpl. apply IH. intros r Hin. apply Hs. now right. }
  intros st0. split.
  - intros e. destruct (merge_list env st0 _) eqn:Hrun; simpl; [discriminate|].
    intros [= <-]. eapply Hraise; eassumption.
  - intros Hs. destruct (Hok (List.concat sources) st0) as [st' ->].
    + intros d Hin. apply in_concat in Hin. destruct Hin as (lst & Hl & Hd).
      rewrite Forall_forall in Hs. exact (Hs lst Hl d Hd).
    + simpl. eexists. reflexivity.
Qed.

Lemma merge_known_speakers_failures_witness :
  merge_known_speakers env_offline [[VDict [("name", VInt 7)]]]
  = Raise AttributeError.
Proof.
  destruct (merge_known_speakers env_offline [[VDict [("name", VInt 7)]]])
    as [roster|e] eqn:H; [discriminate H|].
  f_equal.
  exact (proj1 (merge_known_speakers_failures env_offline
                  [[VDict [("name", VInt 7)]]]) e H).
Defined.

(** ** The shape of the summary *)

(** The labels of a transcript in the order in which they first appear. *)
Definition add_label (seen : list string) (label : string) : list string :=
  if existsb (String.eqb label) seen then seen else seen ++ [label].

Definition labels_in_order (us : list Utterance) : list string :=
  fold_left add_label (map speaker_label us) [].

Section KeysOfLists.
Variable V : Type.

Lemma existsb_keys k (d : list (string * V)) :
  existsb (String.eqb k) (keys d) = contains k d.
Proof.
  unfold contains. induction d as [|[k' v'] d IH]; simpl; [reflexivity|].
  destruct (String.eqb_spec k k'); simpl; [reflexivity | exact IH].
Qed.

Lemma keys_assign k (v : V) d :
  keys (assign k v d) = if contains k d then keys d else keys d ++ [k].
Proof.
  unfold contains. destruct (lookup k d) eqn:Hk.
  - apply keys_assign_present. congruence.
  - rewrite assign_fresh by assumption. unfold keys. now rewrite map_app.
Qed.
End KeysOfLists.

Lemma keys_group_append acc u :
  keys (group_append acc u) = add_label (keys acc) (speaker_label u).
Proof.
  unfold group_append, add_label. rewrite existsb_keys. unfold contains.
  destruct (lookup (speaker_label u) acc) eqn:Hk; rewrite keys_assign;
    unfold contains; now rewrite Hk.
Qed.

Lemma keys_fold_group_append us : forall acc,
  keys (fold_left group_append us acc)
  = fold_left add_label (map speaker_label us) (keys acc).
Proof.
  induction us as [|u us IH]; intros acc; simpl; [reflexivity|].
  now rewrite IH, keys_group_append.
Qed.

(** The summary is built group by group, in the order of the groups. *)
Lemma fold_assign_map (A : Type) (g : A -> value) bl : forall acc,
  NoDup (keys acc ++ keys bl) ->
  fold_left (fun summary '(l, us) => assign l (g us) summary) bl acc
  = acc ++ map (fun '(l, us) => (l, g us)) bl.
Proof.
  induction bl as [|[l0 us0] bl IH]; intros acc Hnd; simpl.
  - now rewrite app_nil_r.
  - assert (Hfresh : lookup l0 acc = None).
    { apply lookup_none_keys. intros Hin. simpl in Hnd.
      apply NoDup_remove_2 in Hnd. apply Hnd. apply in_or_app. now left. }
    rewrite assign_fresh by assumption. rewrite IH.
    + now rewrite <- app_assoc.
    + unfold keys at 1. rewrite map_app, <- app_assoc. exact Hnd.
Qed.

Lemma summarize_by_group us K :
  summarize_observed_speakers us K
  = map (fun '(l, g) => (l, summary_entry K g)) (group_by_label us).
Proof.
  unfold summarize_observed_speakers.
  rewrite fold_assign_map; [reflexivity|]. apply group_by_label_keys.
Qed.

(** X5. The entries of the summary stand in the order in which their labels
    first appear in the transcript, one entry per label. *)
Theorem summary_labels_in_first_seen_order (us : list Utterance) (K : Z) :
  keys (summarize_observed_speakers us K) = labels_in_order us
  /\ NoDup (keys (summarize_observed_speakers us K)).
Proof.
  assert (E : keys (summarize_observed_speakers us K) = keys (group_by_label us)).
  { rewrite summarize_by_group. unfold keys. rewrite map_map.
    apply map_ext. now intros [l g]. }
  rewrite E. split; [|apply group_by_label_keys].
  unfold group_by_label. now rewrite keys_fold_group_append.
Qed.

(** The count an entry of the summary reports. *)
Definition num_observed_of (entry : value) : Z :=
  match entry with
  | VDict d => match get "num_observed" d with VInt n => n | _ => 0%Z end
  | _ => 0%Z
  end.

Definition total_observed (summary : dict) : Z :=
  fold_right Z.add 0%Z (map num_observed_of (values summary)).

Definition group_total (bl : list (string * list Utterance)) : nat :=
  list_sum (map (fun lg => List.length (snd lg)) bl).

Lemma group_total_assign l g' bl :
  group_total (assign l g' bl)
  + match lookup l bl with Some g => List.length g | None => 0 end
  = group_total bl + List.length g'.
Proof.
  unfold group_total.
  induction bl as [|[l0 g0] bl IH]; simpl; [lia|].
  destruct (String.eqb_spec l l0); simpl; lia.
Qed.

Lemma group_total_append acc u :
  group_total (group_append acc u) = S (group_total acc).
Proof.
  unfold group_append.
  pose proof (group_total_assign (speaker_label u)) as H.
  destruct (lookup (speaker_label u) acc) as [g|] eqn:Hk.
  - specialize (H (g ++ [u]) acc). rewrite Hk, length_app in H. simpl in H. lia.
  - specialize (H [u] acc). rewrite Hk in H. simpl in H. lia.
Qed.

Lemma group_total_fold us : forall acc,
  group_total (fold_left group_append us acc) = group_total acc + List.length us.
Proof.
  induction us as [|u us IH]; intros acc; simpl; [lia|].
  rewrite IH, group_total_append. lia.
Qed.

Lemma num_observed_of_entry K g :
  num_observed_of (summary_entry K g) = Z.of_nat (List.length g).
Proof. reflexivity. Qed.

Lemma total_of_groups K bl :
  fold_right Z.add 0%Z
    (map num_observed_of
       (map snd (map (fun '(l, g) => (l, summary_entry K g)) bl)))
  = Z.of_nat (group_total bl).
Proof.
  induction bl as [|[l g] bl IH].
  - reflexivity.
  - cbn [map snd fold_right]. rewrite IH, num_observed_of_entry.
    unfold group_total. simpl. lia.
Qed.

(** X6. The counts of the summary add up to the number of utterances: every
    utterance is counted under exactly one label, whatever the cap. *)
Theorem summary_counts_add_up (us : list Utterance) (K : Z) :
  total_observed (summarize_observed_speakers us K)
  = Z.of_nat (List.length us).
Proof.
  unfold total_observed, values. rewrite summarize_by_group, total_of_groups.
  unfold group_by_label. rewrite group_total_fold. reflexivity.
Qed.

(** X7. With a negative cap [K] the examples of a label are its utterances
    without the last [-K] of them, in order; the count is still the number of
    all of them. *)
Theorem summary_with_negative_cap (us : list Utterance) (K : Z)
  (label : string) (e : value) :
  (K < 0)%Z ->
  lookup label (summarize_observed_speakers us K) = Some e ->
  let mine := of_label label us in
  exists d,
    e = VDict d
    /\ get "num_observed" d = VInt (Z.of_nat (List.length mine))
    /\ get "examples" d
       = VList (map example_of
                  (firstn (List.length mine - Z.to_nat (- K)) mine)).
Proof.
  intros HK Hlk mine. rewrite summarize_lookup in Hlk. fold mine in Hlk.
  assert (He : e = summary_entry K mine).
  { destruct mine; [discriminate | now injection Hlk]. }
  subst e. unfold summary_entry, slice_to.
  destruct (Z.ltb_spec K 0); [|lia].
  replace (Z.to_nat (Z.of_nat (List.length mine) + K))
    with (List.length mine - Z.to_nat (- K)) by lia.
  eexists. repeat split.
Qed.

Lemma summary_with_negative_cap_witness :
  exists d,
    lookup "SPEAKER_A" (summarize_observed_speakers three_utterances (-1))
    = Some (VDict d)
    /\ get "examples" d = VList [example_of utterance_a1].
Proof.
  destruct (@summary_with_negative_cap three_utterances (-1) "SPEAKER_A" _
              ltac:(lia) eq_refl) as (d & He & _ & Hex).
  exists d. split; [now rewrite <- He | exact Hex].
Defined.

(** ** The resolver and the pipeline *)

(** X8. A mapping that is not empty is never made up: the resolver returns
    one only when the client returned a response whose text is a JSON object,
    and then it is the [mapping] object of that text. *)
Theorem resolver_mapping_comes_from_response (env : Env) (known : list dict)
  (summary : dict) (lines : list string) (model effort : string)
  (temperature : float) (m : dict) :
  outcome (resolve_speakers_via_llm env known summary lines model effort
             temperature) = Ok m ->
  m <> [] ->
  exists req resp content parsed,
    issued (resolve_speakers_via_llm env known summary lines model effort
              temperature) = [req]
    /\ responses_create env req = Ok resp
    /\ _coalesce_response_text resp = OStr content
    /\ json_loads env content = Some (VDict parsed)
    /\ get "mapping" parsed = VDict m.
Proof.
  simpl. set (req := {| req_model := model |}).
  destruct (responses_create env req) as [resp|e] eqn:Hresp; simpl; [|discriminate].
  destruct (_coalesce_response_text resp) as [|content| |] eqn:Htext;
    try discriminate.
  destruct (json_loads env content) as [[| | | | | |parsed]|] eqn:Hjson;
    try discriminate; try (intros [= <-]; contradiction).
  intros Hm Hne. exists req, resp, content, parsed.
  repeat (split; [reflexivity || assumption|]).
  unfold or_else in Hm.
  destruct (get "mapping" parsed) as [|b|n|f|s|l|d]; simpl in Hm;
    try (injection Hm as <-; contradiction).
  - destruct b; injection Hm as <-; contradiction.
  - destruct (negb (n =? 0)%Z); injection Hm as <-; contradiction.
  - destruct (negb (PrimFloat.eqb f PrimFloat.zero)); injection Hm as <-;
      contradiction.
  - destruct (negb (s =? "")%string); injection Hm as <-; contradiction.
  - destruct l; injection Hm as <-; contradiction.
  - destruct d; injection Hm as <-; [contradiction | reflexivity].
Qed.

(** The service answers with a mapping for one label. *)
Definition mapping_text : string :=
  ("{" ++ quoted "mapping" ++ ": {" ++ quoted "SPEAKER_A" ++ ": {"
   ++ quoted "name" ++ ": " ++ quoted "Jane Doe" ++ "}}}")%string.

Definition env_answering : Env :=
  {| py_repr := fun _ => "";
     json_loads := fun s =>
       if (s =? mapping_text)%string
       then Some (VDict [("mapping",
                          VDict [("SPEAKER_A", VDict [("name", VStr "Jane Doe")])])])
       else None;
     json_dumps := fun _ => "";
     files := fun _ => None;
     responses_create := fun _ => Ok (OObj [("output_text", OStr mapping_text)]) |}.

Lemma resolver_mapping_comes_from_response_witness :
  exists parsed,
    json_loads env_answering mapping_text = Some (VDict parsed)
    /\ get "mapping" parsed
       = VDict [("SPEAKER_A", VDict [("name", VStr "Jane Doe")])].
Proof.
  destruct (@resolver_mapping_comes_from_response env_answering [] [] []
              "gpt-5" "medium" PrimFloat.zero
              [("SPEAKER_A", VDict [("name", VStr "Jane Doe")])]
              eq_refl ltac:(discriminate))
    as (req & resp & content & parsed & _ & Hresp & Htext & Hjson & Hmap).
  injection Hresp as <-. injection Htext as <-.
  exists parsed. split; assumption.
Defined.

Lemma committee_loader_empty_on_unusable env path committee_id :
  unusable env path ->
  load_committee_members_from_unitedstates_file env path committee_id = Ok [].
Proof.
  unfold load_committee_members_from_unitedstates_file, open_read.
  intros [H|(text & H & Hj)]; rewrite H; simpl; [reflexivity|].
  now rewrite Hj.
Qed.

(** X9. The pipeline hands at most one request to the client, and none unless
    the transcript and the speakers file are there; without the transcript it
    raises [FileNotFoundError]. *)
Theorem pipeline_needs_its_files (env : Env)
  (transcript_path speakers_path speakers_format : string)
  (committee_membership_path : option string) (committee_id : string)
  (max_lines K : Z) (model effort : string) :
  let r :=
    resolve_speakers_from_files env transcript_path speakers_path
      speakers_format committee_membership_path committee_id max_lines K
      model effort in
  List.length (issued r) <= 1
  /\ (issued r <> [] ->
      files env transcript_path <> None /\ files env speakers_path <> None)
  /\ (files env transcript_path = None ->
      r = {| issued := []; outcome := Raise FileNotFoundError |}).
Proof.
  intros r. subst r. unfold resolve_speakers_from_files.
  destruct (read_transcript_head env transcript_path max_lines)
    as [head|e] eqn:Hhead; cbn [bind].
  - assert (Ht : files env transcript_path <> None).
    { unfold read_transcript_head, open_read in Hhead.
      destruct (files env transcript_path); [discriminate | discriminate Hhead]. }
    destruct (if (lower speakers_format =? "jsonl")%string
              then load_known_speakers_from_jsonl env speakers_path
              else load_known_speakers_from_json env speakers_path)
      as [known|e] eqn:Hknown; cbn [bind].
    + assert (Hs : files env speakers_path <> None).
      { unfold load_known_speakers_from_jsonl, load_known_speakers_from_json,
          open_read in Hknown.
        destruct (files env speakers_path); [discriminate|].
        now destruct (lower speakers_format =? "jsonl")%string. }
      destruct (match committee_membership_path with
                | Some p => _
                | None => _
                end) as [members|e]; cbn [bind].
      * destruct (match members with [] => _ | _ => _ end) as [roster|e];
          cbn [bind]; simpl;
          (split; [lia|]; split; [now intros _ | intros H; contradiction]).
      * simpl. split; [lia|]. split; [now intros _ | intros H; contradiction].
    + simpl. split; [lia|]. split; [intros H; now elim H | intros H; contradiction].
  - simpl. split; [lia|]. split; [intros H; now elim H|].
    intros Hnone. unfold read_transcript_head, open_read in Hhead.
    rewrite Hnone in Hhead. simpl in Hhead. now injection Hhead as <-.
Qed.

Lemma pipeline_needs_its_files_witness :
  resolve_speakers_from_files env_offline "transcript.txt" "witnesses.jsonl"
    "jsonl" None "HSAG" 300 3 "gpt-5" "medium"
  = {| issued := []; outcome := Raise FileNotFoundError |}.
Proof.
  apply (proj2 (proj2 (pipeline_needs_its_files env_offline "transcript.txt"
                         "witnesses.jsonl" "jsonl" None "HSAG" 300 3 "gpt-5"
                         "medium"))).
  reflexivity.
Defined.

(** X10. A committee file that is absent or is not JSON changes nothing: the
    run is the run without a committee path. *)
Theorem unusable_committee_file_is_ignored (env : Env)
  (transcript_path speakers_path speakers_format path committee_id : string)
  (max_lines K : Z) (model effort : string) :
  unusable env path ->
  resolve_speakers_from_files env transcript_path speakers_path
    speakers_format (Some path) committee_id max_lines K model effort
  = resolve_speakers_from_files env transcript_path speakers_path
      speakers_format None committee_id max_lines K model effort.
Proof.
  intros H. unfold resolve_speakers_from_files.
  now rewrite committee_loader_empty_on_unusable.
Qed.

Lemma unusable_committee_file_is_ignored_witness :
  resolve_speakers_from_files env_demo "transcript.txt" "witnesses.json" "json"
    (Some "no-such-file.json") "HSAG" 300 3 "gpt-5" "medium"
  = resolve_speakers_from_files env_demo "transcript.txt" "witnesses.json"
      "json" None "HSAG" 300 3 "gpt-5" "medium".
Proof.
  apply unusable_committee_file_is_ignored. left. reflexivity.
Defined.

(** ** What the loaders return *)

(** A record the JSONL loader keeps. *)
Definition named_person (d : dict) : Prop :=
  truthy (get "name" d) = true
  /\ exists t, get "type" d = VStr t
               /\ (t = "witness" \/ t = "member" \/ t = "person").

Lemma jsonl_keep_some obj d :
  jsonl_keep obj = Ok (Some d) -> obj = VDict d /\ named_person d.
Proof.
  destruct obj as [| | | | | |r]; simpl; try discriminate.
  destruct (get "type" r) as [| | | |t| |] eqn:Ht; simpl; try discriminate.
  destruct ((t =? "witness")%string || (t =? "member")%string
            || (t =? "person")%string) eqn:Hset; simpl; [|discriminate].
  destruct (truthy (get "name" r)) eqn:Hn; [|discriminate].
  intros [= <-]. split; [reflexivity|]. split; [assumption|].
  exists t. split; [assumption|].
  apply orb_prop in Hset. destruct Hset as [Hset|Hp].
  - apply orb_prop in Hset. destruct Hset as [Hw|Hm].
    + left. now apply String.eqb_eq.
    + right. left. now apply String.eqb_eq.
  - right. right. now apply String.eqb_eq.
Qed.

Lemma jsonl_rows_kept env lines : forall rows,
  jsonl_rows env lines = Ok rows ->
  List.length rows <= List.length lines
  /\ forall d, In d rows ->
       named_person d
       /\ exists line, In line lines
                       /\ json_loads env (strip line) = Some (VDict d).
Proof.
  induction lines as [|raw lines IH]; intros rows; simpl.
  - intros [= <-]. split; [simpl; lia | intros d []].
  - assert (Hskip : jsonl_rows env lines = Ok rows ->
                    List.length rows <= S (List.length lines)
                    /\ forall d, In d rows ->
                         named_person d
                         /\ exists line, (raw = line \/ In line lines)
                              /\ json_loads env (strip line) = Some (VDict d)).
    { intros H. destruct (IH _ H) as [Hlen Hin]. split; [simpl in *; lia|].
      intros d Hd. destruct (Hin d Hd) as [Hp (line & Hl & Hj)].
      split; [assumption|]. exists line. split; [now right | assumption]. }
    destruct (strip raw =? "")%string; [exact Hskip|].
    destruct (json_loads env (strip raw)) as [obj|] eqn:Hj; [|exact Hskip].
    destruct (jsonl_keep obj) as [kept|e] eqn:Hkeep; simpl; [|discriminate].
    destruct (jsonl_rows env lines) as [rest|e] eqn:Hrest; simpl; [|discriminate].
    destruct (IH _ eq_refl) as [Hlen Hin].
    destruct kept as [d0|]; intros [= <-].
    + apply jsonl_keep_some in Hkeep. destruct Hkeep as [-> Hp].
      split; [simpl; lia|]. intros d [<-|Hd].
      * split; [assumption|]. exists raw. split; [now left | assumption].
      * destruct (Hin d Hd) as [Hp' (line & Hl & Hj')].
        split; [assumption|]. exists line. split; [now right | assumption].
    + split; [simpl in *; lia|]. intros d Hd. destruct (Hin d Hd) as [Hp' (line & Hl & Hj')].
      split; [assumption|]. exists line. split; [now right | assumption].
Qed.

(** X11. Every record the JSONL loader returns has a name and one of the types
    witness, member and person, and is the object of one of the lines of the
    file; so there are no more records than lines, and a metadata line gives
    none. *)
Theorem jsonl_loader_returns_named_people (env : Env) (path : string)
  (rows : list dict) :
  load_known_speakers_from_jsonl env path = Ok rows ->
  exists text,
    files env path = Some text
    /\ List.length rows <= List.length (file_lines text)
    /\ forall d, In d rows ->
         named_person d
         /\ exists line, In line (file_lines text)
                         /\ json_loads env (strip line) = Some (VDict d).
Proof.
  unfold load_known_speakers_from_jsonl, open_read.
  destruct (files env path) as [text|]; simpl; [|discriminate].
  intros H. exists text. split; [reflexivity|]. now apply jsonl_rows_kept.
Qed.

(** A witnesses file as the scraper writes it: a metadata line, then one
    line per witness. *)
Definition metadata_line : string :=
  ("{" ++ quoted "type" ++ ": " ++ quoted "metadata" ++ "}")%string.
Definition witness_line : string :=
  ("{" ++ quoted "type" ++ ": " ++ quoted "witness" ++ ", "
   ++ quoted "name" ++ ": " ++ quoted "Jane Doe" ++ "}")%string.
Definition jane_witness : dict :=
  [("type", VStr "witness"); ("name", VStr "Jane Doe")].

Definition env_jsonl : Env :=
  {| py_repr := fun _ => "";
     json_loads := fun s =>
       if (s =? metadata_line)%string
       then Some (VDict [("type", VStr "metadata")])
       else if (s =? witness_line)%string then Some (VDict jane_witness)
            else None;
     json_dumps := fun _ => "";
     files := fun p =>
       if (p =? "congress_witnesses.jsonl")%string
       then Some (metadata_line ++ nl ++ witness_line ++ nl)%string
       else None;
     responses_create := fun _ => Raise (ServiceError "connection refused") |}.

Lemma jsonl_loader_returns_named_people_witness :
  named_person jane_witness.
Proof.
  destruct (@jsonl_loader_returns_named_people env_jsonl
              "congress_witnesses.jsonl" [jane_witness] eq_refl)
    as (text & _ & _ & H).
  exact (proj1 (H jane_witness (or_introl eq_refl))).
Defined.

(** The entries of a committee in the membership file: the elements of its
    list, or the values of its dict. *)
Definition committee_entries (raw : value) : list value :=
  match raw with
  | VList l => l
  | VDict r => values r
  | _ => []
  end.

(** What a row gets for a field its entry does not have. *)
Definition member_default (key field : string) : option value :=
  if (field =? "type")%string then Some (VStr "member")
  else if (field =? "committee_id")%string then Some (VStr key)
  else if (field =? "chamber")%string then Some (VStr "house")
  else None.

(** [row] is the entry [item] with its own fields kept and the defaults of
    the committee [key] filled in. *)
Definition row_of (key : string) (item row : dict) : Prop :=
  (forall field v, lookup field item = Some v -> lookup field row = Some v)
  /\ (forall field, lookup field item = None ->
                    lookup field row = member_default key field).

Lemma member_row_is_row_of key item : row_of key item (member_row key item).
Proof.
  split.
  - intros field v H. now rewrite lookup_member_row, H.
  - intros field H. now rewrite lookup_member_row, H.
Qed.

Lemma committee_rows_of_entries env path committee_id rows :
  load_committee_members_from_unitedstates_file env path committee_id = Ok rows ->
  rows = []
  \/ exists text data,
       files env path = Some text
       /\ json_loads env text = Some (VDict data)
       /\ rows = map (member_row (upper (strip committee_id)))
                    (named_dicts
                       (committee_entries (get (upper (strip committee_id)) data))).
Proof.
  unfold load_committee_members_from_unitedstates_file, open_read.
  destruct (files env path) as [text|]; simpl; [|intros [= <-]; now left].
  destruct (json_loads env text) as [data|] eqn:Hj; simpl;
    [|intros [= <-]; now left].
  destruct data as [| | | | | |d]; try discriminate.
  destruct (get (upper (strip committee_id)) d) as [| | | | |raw|raw] eqn:Hraw;
    intros [= <-]; try (now left);
    right; exists text, d; (split; [reflexivity|]); (split; [exact Hj|]);
    rewrite Hraw; reflexivity.
Qed.

Lemma in_named_dicts l d :
  In (VDict d) l -> truthy (get "name" d) = true -> In d (named_dicts l).
Proof.
  induction l as [|v l IH]; simpl; [tauto|].
  intros [->|Hin] Hn.
  - simpl. rewrite Hn. now left.
  - destruct (named_dict v); [right|]; now apply IH.
Qed.

(** X12. Every row the committee loader returns is built from a named entry
    of the committee that the membership file lists under the normalised
    committee code: the entry's own fields are kept, and [type],
    [committee_id] and [chamber] are filled in as member, the normalised code
    and house where the entry does not have them; nothing else is added.
    Every named entry of the committee has its row. *)
Theorem committee_rows_keep_fields_and_get_defaults (env : Env)
  (path committee_id : string) (rows : list dict) :
  load_committee_members_from_unitedstates_file env path committee_id = Ok rows ->
  let key := upper (strip committee_id) in
  (forall row, In row rows ->
     exists text data item,
       files env path = Some text
       /\ json_loads env text = Some (VDict data)
       /\ In (VDict item) (committee_entries (get key data))
       /\ truthy (get "name" item) = true
       /\ truthy (get "name" row) = true
       /\ row_of key item row)
  /\ (forall text data item,
        files env path = Some text ->
        json_loads env text = Some (VDict data) ->
        In (VDict item) (committee_entries (get key data)) ->
        truthy (get "name" item) = true ->
        exists row, In row rows /\ row_of key item row).
Proof.
  intros Hload key.
  destruct (committee_rows_of_entries _ _ _ Hload)
    as [->|(text & data & Hf & Hj & ->)].
  - split; [intros row []|].
    intros text data item Hf Hj Hin Hn. exfalso.
    revert Hload. unfold load_committee_members_from_unitedstates_file, open_read.
    rewrite Hf. simpl. rewrite Hj. fold key.
    apply (in_named_dicts _ _ Hin) in Hn.
    unfold committee_entries in Hn.
    destruct (get key data) as [| | | | |raw|raw]; try contradiction;
      intros [= E]; destruct (named_dicts _); [contradiction | discriminate
                                              | contradiction | discriminate].
  - fold key. split.
    + intros row Hin. apply in_map_iff in Hin. destruct Hin as (item & <- & Hin).
      apply named_dicts_named in Hin. destruct Hin as [Hin Hn].
      exists text, data, item. repeat (split; [assumption|]).
      split; [|apply member_row_is_row_of].
      now apply member_row_named.
    + intros text' data' item Hf' Hj' Hin Hn.
      rewrite Hf in Hf'. injection Hf' as <-.
      rewrite Hj in Hj'. injection Hj' as <-.
      exists (member_row key item). split; [|apply member_row_is_row_of].
      apply in_map. now apply in_named_dicts.
Qed.

(** The committee file of the small world, asked for [ hsag ]: the row of
    its member comes from the entry of the file, with the three defaults. *)
Lemma committee_rows_keep_fields_and_get_defaults_witness :
  exists item,
    In (VDict item) [VDict smith]
    /\ row_of "HSAG" item smith_member.
Proof.
  destruct (proj1 (@committee_rows_keep_fields_and_get_defaults env_demo
                     "committee.json" " hsag " [smith_member] eq_refl)
              smith_member (or_introl eq_refl))
    as (text & data & item & Hf & Hj & Hin & _ & _ & Hrow).
  injection Hf as <-. injection Hj as <-.
  exists item. split; [exact Hin | exact Hrow].
Defined.

(* ================================================================== *)
(** * Part IV. What the parser captures                                 *)
(* ================================================================== *)

(** [denote] with the captures: a group records the text it consumed, the
    other expressions leave the captures as they are. *)
Fixpoint denote_caps (whole : string) (r : regex) (s : string)
  (caps : captures) (s' : string) (caps' : captures) : Prop :=
  match r with
  | Cat r1 r2 =>
      exists m cm, denote_caps whole r1 s caps m cm
                   /\ denote_caps whole r2 m cm s' caps'
  | Group name r =>
      exists c0,
        denote_caps whole r s caps s' c0
        /\ caps' = assign name
                     (substring (String.length whole - String.length s)
                        (String.length s - String.length s') whole) c0
  | _ => denote whole r s s' /\ caps' = caps
  end.

Lemma re_go_sound_caps whole r : forall k s caps m,
  re_go whole r k s caps = Some m ->
  exists s' caps', denote_caps whole r s caps s' caps' /\ k s' caps' = Some m.
Proof.
  induction r as [| |lit|p|n p|p|p|r1 IH1 r2 IH2|name r IH];
    intros k s caps m; simpl.
  - destruct (Nat.eqb_spec (String.length s) (String.length whole));
      [|discriminate].
    intros H. exists s, caps. auto.
  - destruct (String.eqb_spec s "") as [->|H1]; simpl.
    + intros H. exists "", caps. auto.
    + destruct (String.eqb_spec s nl) as [->|H2]; [|discriminate].
      intros H. exists nl, caps. auto.
  - intros H. destruct (str_go_sound _ _ _ _ H) as (s' & -> & Hk).
    exists s', caps. auto.
  - destruct s as [|c s]; [discriminate|].
    destruct (p c) eqn:Hc; [|discriminate].
    intros H. exists s, caps. repeat split; [now exists c | assumption].
  - intros H. destruct (rep_go_sound _ _ _ _ _ H) as (w & s' & -> & Hl & Hw & Hk).
    exists s', caps. repeat split; [now exists w | assumption].
  - intros H. destruct (star_go_sound _ _ _ _ H) as (w & s' & -> & Hw & Hk).
    exists s', caps. repeat split; [now exists w | assumption].
  - destruct s as [|c s]; [discriminate|].
    destruct (p c) eqn:Hc; [|discriminate].
    intros H. destruct (star_go_sound _ _ _ _ H) as (w & s' & -> & Hw & Hk).
    exists s', caps. split; [|assumption]. split; [|reflexivity].
    exists (String c w). simpl. rewrite Hc, Hw. repeat split. discriminate.
  - intros H. destruct (IH1 _ _ _ _ H) as (s1 & caps1 & H1 & Hk1).
    destruct (IH2 _ _ _ _ Hk1) as (s2 & caps2 & H2 & Hk2).
    exists s2, caps2. split; [now exists s1, caps1 | assumption].
  - intros H. destruct (IH _ _ _ _ H) as (s' & caps' & Hd & Hk).
    exists s'. eexists. split; [exists caps'; split; [exact Hd | reflexivity]|].
    exact Hk.
Qed.

Lemma append_assoc_string (a b c : string) :
  ((a ++ b) ++ c = a ++ (b ++ c))%string.
Proof. induction a as [|x a IH]; simpl; [reflexivity | now rewrite IH]. Qed.

Lemma append_empty_r (a : string) : (a ++ "")%string = a.
Proof. induction a as [|x a IH]; simpl; [reflexivity | now rewrite IH]. Qed.

Lemma length_append (a b : string) :
  String.length (a ++ b)%string = String.length a + String.length b.
Proof. induction a as [|x a IH]; simpl; [reflexivity | now rewrite IH]. Qed.

Lemma substring_prefix (t post : string) :
  substring 0 (String.length t) (t ++ post)%string = t.
Proof.
  induction t as [|x t IH]; simpl.
  - now destruct post.
  - now rewrite IH.
Qed.

(** The text a group records is the text between the two positions. *)
Lemma capture_of_split (pre t post : string) :
  substring
    (String.length (pre ++ t ++ post)%string - String.length (t ++ post)%string)
    (String.length (t ++ post)%string - String.length post)
    (pre ++ t ++ post)%string = t.
Proof.
  rewrite !length_append.
  replace (_ + (_ + _) - (_ + _)) with (String.length pre) by lia.
  replace (String.length t + String.length post - String.length post)
    with (String.length t) by lia.
  induction pre as [|x pre IH]; simpl; [apply substring_prefix | exact IH].
Qed.

Lemma denote_caps_hms whole s caps s' caps' :
  denote_caps whole hms s caps s' caps' ->
  denote whole hms s s' /\ caps' = caps.
Proof.
  unfold hms. cbn [denote_caps denote].
  intros (m1 & c1 & [H1 ->] & m2 & c2 & [H2 ->] & m3 & c3 & [H3 ->]
          & m4 & c4 & [H4 ->] & H5 & ->).
  split; [|reflexivity].
  exists m1. split; [assumption|]. exists m2. split; [assumption|].
  exists m3. split; [assumption|]. exists m4. split; assumption.
Qed.

Lemma capture_at (pre t post whole : string) :
  whole = (pre ++ t ++ post)%string ->
  substring (String.length whole - String.length (t ++ post)%string)
    (String.length (t ++ post)%string - String.length post) whole = t.
Proof. intros ->. apply capture_of_split. Qed.

Ltac reassociate :=
  repeat first [rewrite append_assoc_string | progress simpl]; reflexivity.

Lemma speaker_line_captures line m :
  re_match SPEAKER_LINE_RE line = Some m ->
  exists t1 w1 w2 t2 w3 c w4 body eol,
    line = ("[" ++ t1 ++ w1 ++ "-" ++ w2 ++ t2 ++ "]" ++ w3 ++ "SPEAKER_"
            ++ String c (":" ++ w4 ++ body ++ eol))%string
    /\ hms_text t1 /\ hms_text t2
    /\ blank w1 /\ blank w2 /\ blank w3 /\ w3 <> ""
    /\ is_upper c = true
    /\ blank w4 /\ all_chars not_newline body = true
    /\ (eol = "" \/ eol = nl)
    /\ m = [ ("start", t1); ("end", t2);
             ("label", ("SPEAKER_" ++ String c "")%string); ("text", body) ].
Proof.
  unfold re_match. intros H.
  apply re_go_sound_caps in H. destruct H as (s' & caps' & H & [= <-]).
  unfold SPEAKER_LINE_RE in H. cbn [denote_caps denote] in H.
  destruct H as (m0 & c0 & [[_ ->] ->] & m1 & c1 & [Hline ->]
                 & m2 & c2 & (c2' & Hstart & ->)
                 & m3 & c3 & [(w1 & -> & Hw1) ->]
                 & m4 & c4 & [-> ->]
                 & m5 & c5 & [(w2 & -> & Hw2) ->]
                 & m6 & c6 & (c6' & Hend & ->)
                 & m7 & c7 & [-> ->]
                 & m8 & c8 & [(w3 & -> & Hw3 & Hne3) ->]
                 & m9 & c9 & (c9' & (m9' & c9'' & [-> ->] & [(c & -> & Hc) ->]) & ->)
                 & m10 & c10 & [-> ->]
                 & m11 & c11 & [(w4 & -> & Hw4) ->]
                 & m12 & c12 & (c12' & [(body & -> & Hbody) ->] & ->)
                 & [Heol ->] & ->).
  apply denote_caps_hms in Hstart, Hend.
  destruct Hstart as [Hstart ->], Hend as [Hend ->].
  destruct (proj1 (denote_hms _ _ _) Hstart) as (t1 & Ht1 & ->).
  destruct (proj1 (denote_hms _ _ _) Hend) as (t2 & Ht2 & ->).
  exists t1, w1, w2, t2, w3, c, w4, body, m12.
  repeat (split; [assumption|]).
  rewrite (@capture_at "[" t1 _ line Hline).
  rewrite (@capture_at ("[" ++ t1 ++ w1 ++ "-" ++ w2) t2 _ line)
    by (rewrite Hline; reassociate).
  change ("SPEAKER_" ++ String c (":" ++ w4 ++ body ++ m12))%string
    with (("SPEAKER_" ++ String c "") ++ ":" ++ w4 ++ body ++ m12)%string.
  rewrite (@capture_at ("[" ++ t1 ++ w1 ++ "-" ++ w2 ++ t2 ++ "]" ++ w3)
             ("SPEAKER_" ++ String c "") (":" ++ w4 ++ body ++ m12) line)
    by (rewrite Hline; reassociate).
  rewrite (@capture_at ("[" ++ t1 ++ w1 ++ "-" ++ w2 ++ t2 ++ "]" ++ w3
                        ++ "SPEAKER_" ++ String c (":" ++ w4)) body m12 line)
    by (rewrite Hline; reassociate).
  reflexivity.
Qed.

(** ** Stripping *)

Lemma string_of_list_app (a b : list ascii) :
  string_of_list_ascii (a ++ b)
  = (string_of_list_ascii a ++ string_of_list_ascii b)%string.
Proof. induction a as [|x a IH]; simpl; [reflexivity | now rewrite IH]. Qed.

Lemma list_of_string_app (a b : string) :
  list_ascii_of_string (a ++ b)%string
  = list_ascii_of_string a ++ list_ascii_of_string b.
Proof. induction a as [|x a IH]; simpl; [reflexivity | now rewrite IH]. Qed.

Lemma rev_string_cons c s :
  rev_string (String c s) = (rev_string s ++ String c "")%string.
Proof. unfold rev_string. simpl. now rewrite string_of_list_app. Qed.

Lemma rev_string_snoc s c :
  rev_string (s ++ String c "")%string = String c (rev_string s).
Proof.
  unfold rev_string. rewrite list_of_string_app, rev_app_distr. reflexivity.
Qed.

Lemma drop_while_snoc p a c :
  drop_while p (a ++ String c "")%string =
  match drop_while p a with
  | EmptyString => if p c then EmptyString else String c EmptyString
  | y => (y ++ String c "")%string
  end.
Proof.
  induction a as [|x a IH]; simpl; [reflexivity|].
  destruct (p x); [exact IH | reflexivity].
Qed.

(** [rstrip] read from the front of the text. *)
Lemma rstrip_chars_cons p c t :
  rstrip_chars p (String c t) =
  match rstrip_chars p t with
  | EmptyString => if p c then EmptyString else String c EmptyString
  | r => String c r
  end.
Proof.
  unfold rstrip_chars. rewrite rev_string_cons, drop_while_snoc.
  destruct (drop_while p (rev_string t)) as [|y ys].
  - simpl. now destruct (p c).
  - rewrite rev_string_snoc.
    destruct (rev_string (String y ys)) as [|z zs] eqn:E; [|reflexivity].
    exfalso. rewrite rev_string_cons in E.
    destruct (rev_string ys); discriminate.
Qed.

Lemma rstrip_chars_empty p : rstrip_chars p "" = "".
Proof. reflexivity. Qed.

Lemma rstrip_chars_idempotent p s :
  rstrip_chars p (rstrip_chars p s) = rstrip_chars p s.
Proof.
  induction s as [|c t IH]; [reflexivity|].
  rewrite rstrip_chars_cons.
  destruct (rstrip_chars p t) as [|d r] eqn:E.
  - destruct (p c) eqn:Hc; [reflexivity|].
    now rewrite rstrip_chars_cons, rstrip_chars_empty, Hc.
  - now rewrite rstrip_chars_cons, IH.
Qed.



Lemma drop_while_head p s :
  drop_while p s = ""
  \/ exists c t, drop_while p s = String c t /\ p c = false.
Proof.
  induction s as [|c t IH]; simpl; [now left|].
  destruct (p c) eqn:Hc; [exact IH|]. right. now exists c, t.
Qed.

Lemma drop_while_blank_prefix w s :
  all_chars is_space w = true ->
  drop_while is_space (w ++ s)%string = drop_while is_space s.
Proof.
  induction w as [|c w IH]; simpl; [reflexivity|].
  intros H. apply andb_prop in H. destruct H as [-> H]. now apply IH.
Qed.

Lemma strip_blank_prefix w s :
  all_chars is_space w = true -> strip (w ++ s)%string = strip s.
Proof.
  intros H. unfold strip, lstrip_chars. now rewrite drop_while_blank_prefix.
Qed.

Lemma strip_idempotent s : strip (strip s) = strip s.
Proof.
  unfold strip, lstrip_chars.
  destruct (drop_while_head is_space s) as [->|(c & t & -> & Hc)];
    [reflexivity|].
  rewrite rstrip_chars_cons.
  assert (E : forall r, drop_while is_space (String c r) = String c r)
    by (intros r; simpl; now rewrite Hc).
  destruct (rstrip_chars is_space t) as [|d r] eqn:Er.
  - rewrite Hc, E. now rewrite rstrip_chars_cons, rstrip_chars_empty, Hc.
  - rewrite E. rewrite rstrip_chars_cons.
    assert (Hid : rstrip_chars is_space (String d r) = String d r).
    { rewrite <- Er. apply rstrip_chars_idempotent. }
    now rewrite Hid.
Qed.


(** ** The fields of an utterance *)




(* ================================================================== *)
(** * Part V. The diarization script                                    *)
(* ================================================================== *)

(** A model of the part of [assemblyai_diarization.py] that turns the
    service's result into transcript lines: the speaker turns, the fallback
    that builds turns from words, [_format_ms] and the line written for a
    turn. *)

Module Diarize.

Record SpeakerTurn : Type := {
  speaker : string;
  start_ms : Z;
  end_ms : Z;
  text : string
}.

(** A word of the transcript, seen through [getattr]: an attribute that is
    missing or [None] is [None]; the text is a string. *)
Record Word : Type := {
  w_speaker : option string;
  w_start : option Z;
  w_end : option Z;
  w_text : string
}.

(** [f"SPEAKER_{spk_raw}" if spk_raw is not None else "SPEAKER_?"] *)
Definition speaker_tag (spk_raw : option string) : string :=
  match spk_raw with
  | Some s => ("SPEAKER_" ++ s)%string
  | None => "SPEAKER_?"
  end.

(** [int(x or d)] for an attribute [x] that is an integer or [None]. *)
Definition int_or (x : option Z) (d : Z) : Z :=
  match x with
  | Some z => if (z =? 0)%Z then d else z
  | None => d
  end.

(** The variables of the fallback loop. *)
Record words_state : Type := {
  current_speaker : option string;
  current_text : list string;
  current_start : option Z;
  current_end : option Z;
  turns : list SpeakerTurn
}.

(** The turn appended when a run of words ends. *)
Definition close_turn (st : words_state) (spk : string) : SpeakerTurn :=
  {| speaker := spk;
     start_ms := int_or (current_start st) 0;
     end_ms := int_or (current_end st) (int_or (current_start st) 0);
     text := strip (join " " (current_text st)) |}.

Definition words_step (st : words_state) (w : Word) : words_state :=
  let speaker := speaker_tag (w_speaker w) in
  let start := int_or (w_start w) 0 in
  let end_ := int_or (w_end w) 0 in
  let text := w_text w in
  match current_speaker st with
  | None =>
      {| current_speaker := Some speaker; current_text := [text];
         current_start := Some start; current_end := Some end_;
         turns := turns st |}
  | Some cur =>
      if (speaker =? cur)%string then
        {| current_speaker := Some cur;
           current_text := current_text st ++ [text];
           current_start := current_start st; current_end := Some end_;
           turns := turns st |}
      else
        {| current_speaker := Some speaker; current_text := [text];
           current_start := Some start; current_end := Some end_;
           turns := turns st ++ [close_turn st cur] |}
  end.

(** The fallback of [diarize_audio_file]: one turn per run of words of the
    same speaker. *)
Definition turns_from_words (words : list Word) : list SpeakerTurn :=
  let st :=
    fold_left words_step words
      {| current_speaker := None; current_text := []; current_start := None;
         current_end := None; turns := [] |} in
  match current_speaker st with
  | Some cur => turns st ++ [close_turn st cur]
  | None => turns st
  end.

Definition digit_char (d : nat) : ascii := ascii_of_nat (48 + d).

(** The decimal digits of [n], most significant first. *)
Fixpoint decimal_digits (fuel n : nat) (acc : string) : string :=
  match fuel with
  | 0 => acc
  | S fuel' =>
      let acc' := String (digit_char (n mod 10)) acc in
      if n / 10 =? 0 then acc' else decimal_digits fuel' (n / 10) acc'
  end.

Definition decimal (n : nat) : string := decimal_digits (S n) n "".

(** [f"{n:02d}"] for a number that is not negative. *)
Definition format_02d (n : nat) : string :=
  let s := decimal n in
  if String.length s <? 2 then ("0" ++ s)%string else s.

Definition _format_ms (ms : Z) : string :=
  let s := Z.max 0 (ms / 1000) in
  let hh := (s / 3600)%Z in
  let mm := ((s mod 3600) / 60)%Z in
  let ss := (s mod 60)%Z in
  (format_02d (Z.to_nat hh) ++ ":" ++ format_02d (Z.to_nat mm) ++ ":"
   ++ format_02d (Z.to_nat ss))%string.

(** The line the script writes for a turn. *)
Definition format_turn (t : SpeakerTurn) : string :=
  ("[" ++ _format_ms (start_ms t) ++ " - " ++ _format_ms (end_ms t) ++ "] "
   ++ speaker t ++ ": " ++ text t)%string.

(** The text the script writes: the lines joined by line feeds. *)
Definition transcript_text (ts : list SpeakerTurn) : string :=
  join nl (map format_turn ts).

End Diarize.

(** ** Lines written by the diarizer and read by the parser *)

Lemma format_02d_two_digits n :
  n < 100 ->
  exists a b, Diarize.format_02d n = String a (String b "")
              /\ is_digit a = true /\ is_digit b = true.
Proof.
  intros H.
  do 100 (destruct n as [|n];
          [eexists; eexists; split; [vm_compute; reflexivity|];
           split; vm_compute; reflexivity|]).
  lia.
Qed.

Lemma format_ms_hms ms :
  (ms < 360000000)%Z -> hms_text (Diarize._format_ms ms).
Proof.
  intros H. unfold Diarize._format_ms.
  set (s := Z.max 0 (ms / 1000)).
  assert (Hs : (0 <= s < 360000)%Z).
  { unfold s. split; [lia|].
    apply Z.max_lub_lt; [lia|]. apply Z.div_lt_upper_bound; lia. }
  destruct (@format_02d_two_digits (Z.to_nat (s / 3600))) as (h1 & h2 & -> & ? & ?).
  { assert (s / 3600 < 100)%Z by (apply Z.div_lt_upper_bound; lia).
    assert (0 <= s / 3600)%Z by (apply Z.div_pos; lia). lia. }
  destruct (@format_02d_two_digits (Z.to_nat (s mod 3600 / 60)))
    as (m1 & m2 & -> & ? & ?).
  { pose proof (Z.mod_pos_bound s 3600 ltac:(lia)).
    assert (s mod 3600 / 60 < 60)%Z by (apply Z.div_lt_upper_bound; lia).
    assert (0 <= s mod 3600 / 60)%Z by (apply Z.div_pos; lia). lia. }
  destruct (@format_02d_two_digits (Z.to_nat (s mod 60))) as (s1 & s2 & -> & ? & ?).
  { pose proof (Z.mod_pos_bound s 60 ltac:(lia)). lia. }
  exists h1, h2, m1, m2, s1, s2. simpl. repeat split; assumption.
Qed.

Lemma all_chars_app p a b :
  all_chars p (a ++ b)%string = all_chars p a && all_chars p b.
Proof.
  induction a as [|x a IH]; simpl; [reflexivity|].
  now rewrite IH, andb_assoc.
Qed.

(** A line with the two times and the separators of the script, and any text
    [rest] after [SPEAKER_]: what the parser captures when it accepts it. *)
Lemma bracketed_line_captures F1 F2 rest m :
  hms_text F1 -> hms_text F2 ->
  re_match SPEAKER_LINE_RE
    ("[" ++ F1 ++ " - " ++ F2 ++ "] SPEAKER_" ++ rest)%string = Some m ->
  exists c w4 body eol,
    rest = String c (":" ++ w4 ++ body ++ eol)%string
    /\ is_upper c = true /\ blank w4
    /\ all_chars not_newline body = true /\ (eol = "" \/ eol = nl)
    /\ m = [ ("start", F1); ("end", F2);
             ("label", ("SPEAKER_" ++ String c "")%string); ("text", body) ].
Proof.
  intros HF1 HF2 Hm. apply speaker_line_captures in Hm.
  destruct Hm as (t1 & w1 & w2 & t2 & w3 & c & w4 & body & eol & E & Ht1 & Ht2
                  & Hw1 & Hw2 & Hw3 & Hne & Hc & Hw4 & Hbody & Heol & ->).
  destruct HF1 as (a1 & a2 & a3 & a4 & a5 & a6 & -> & _).
  destruct HF2 as (b1 & b2 & b3 & b4 & b5 & b6 & -> & Hb1 & _).
  destruct Ht1 as (c1 & c2 & c3 & c4 & c5 & c6 & -> & _).
  destruct Ht2 as (d1 & d2 & d3 & d4 & d5 & d6 & -> & Hd1 & _).
  simpl in E. injection E as <- <- <- <- <- <- E.
  change (String " " (String "-" (String " " ?x)))
    with (" " ++ String "-" (String " " x))%string in E.
  apply blank_prefix_unique in E; try assumption; try reflexivity.
  destruct E as [<- E]. injection E as E.
  change (String " " (String b1 ?x)) with (" " ++ String b1 x)%string in E.
  apply blank_prefix_unique in E; try assumption; try reflexivity;
    try now apply digit_not_space.
  destruct E as [<- E]. injection E as <- <- <- <- <- <- E.
  change (String " " (String "S" ?x)) with (" " ++ String "S" x)%string in E.
  apply blank_prefix_unique in E; try assumption; try reflexivity.
  destruct E as [<- E]. injection E as E.
  exists c, w4, body, eol. repeat split; auto.
Qed.

(** A turn whose line the parser reads back: a one-letter speaker, times
    below a hundred hours, and a text on one line. *)
Definition parseable_turn (t : Diarize.SpeakerTurn) : Prop :=
  (exists c, is_upper c = true
             /\ Diarize.speaker t = ("SPEAKER_" ++ String c "")%string)
  /\ (Diarize.start_ms t < 360000000)%Z
  /\ (Diarize.end_ms t < 360000000)%Z
  /\ all_chars not_newline (Diarize.text t) = true.

(** What the parser is to find in the line of a turn. *)
Definition turn_fields (t : Diarize.SpeakerTurn)
  : string * string * string * string :=
  (Diarize._format_ms (Diarize.start_ms t),
   Diarize._format_ms (Diarize.end_ms t),
   Diarize.speaker t, strip (Diarize.text t)).

Lemma line_fields_of_turn t :
  parseable_turn t -> line_fields (Diarize.format_turn t) = Some (turn_fields t).
Proof.
  intros ((c & Hc & Hspk) & Hs & He & Htext).
  pose proof (format_ms_hms Hs) as H1. pose proof (format_ms_hms He) as H2.
  unfold line_fields, turn_fields, Diarize.format_turn. rewrite Hspk.
  set (F1 := Diarize._format_ms (Diarize.start_ms t)) in *.
  set (F2 := Diarize._format_ms (Diarize.end_ms t)) in *.
  set (txt := Diarize.text t) in *.
  change ("[" ++ F1 ++ " - " ++ F2 ++ "] " ++ ("SPEAKER_" ++ String c "")
          ++ ": " ++ txt)%string
    with ("[" ++ F1 ++ " - " ++ F2 ++ "] SPEAKER_"
          ++ String c (": " ++ txt))%string.
  destruct (re_match SPEAKER_LINE_RE _) as [m|] eqn:Hm.
  - apply bracketed_line_captures in Hm; try assumption.
    destruct Hm as (c' & w4 & body & eol & E & _ & Hw4 & Hbody & Heol & ->).
    injection E as <- E.
    change (Some (F1, F2, ("SPEAKER_" ++ String c "")%string, strip body)
            = Some (F1, F2, ("SPEAKER_" ++ String c "")%string, strip txt)).
    assert (Heol' : eol = "").
    { destruct Heol as [->| ->]; [reflexivity|]. exfalso.
      assert (Hall : all_chars not_newline (String " " txt) = true)
        by (simpl; exact Htext).
      simpl in E. rewrite E in Hall.
      rewrite !all_chars_app in Hall.
      apply andb_prop in Hall. destruct Hall as [_ Hall].
      apply andb_prop in Hall. destruct Hall as [_ Hall]. discriminate Hall. }
    subst eol. rewrite append_empty_r in E.
    assert (Hstrip : strip body = strip txt).
    { rewrite <- (@strip_blank_prefix w4 body Hw4), <- E.
      now apply (@strip_blank_prefix " " txt). }
    now rewrite Hstrip.
  - exfalso.
    assert (Hacc : re_match SPEAKER_LINE_RE
                     ("[" ++ F1 ++ " - " ++ F2 ++ "] SPEAKER_"
                      ++ String c (": " ++ txt))%string <> None).
    { apply re_match_denote, denote_speaker_line.
      exists F1, " ", " ", F2, " ", (String c ""), (" " ++ txt)%string.
      split; [reflexivity|].
      repeat (split; [assumption || reflexivity || discriminate|]).
      exists " ", txt, "". split; [now rewrite append_empty_r|].
      repeat split; auto. }
    contradiction.
Qed.

(** X14. The transcript lines the diarization script writes are read back by
    the parser: for turns with a one-letter speaker, times below a hundred
    hours and a one-line text, parsing the written lines gives one utterance
    per turn, in order, with the formatted times, the speaker as label and the
    stripped text. *)
Theorem diarized_lines_parse_back (ts : list Diarize.SpeakerTurn) :
  Forall parseable_turn ts ->
  map utterance_fields (parse_utterances (map Diarize.format_turn ts))
  = map turn_fields ts.
Proof.
  intros H. unfold parse_utterances. rewrite parse_from_fields.
  induction H as [|t ts Ht Hts IH]; simpl; [reflexivity|].
  now rewrite (line_fields_of_turn Ht), IH.
Qed.

Definition opening_turn : Diarize.SpeakerTurn :=
  {| Diarize.speaker := "SPEAKER_A"; Diarize.start_ms := 62000;
     Diarize.end_ms := 70500; Diarize.text := "Thank you, Chairman." |}.

Lemma diarized_lines_parse_back_witness :
  map utterance_fields
    (parse_utterances (map Diarize.format_turn [opening_turn]))
  = [("00:01:02", "00:01:10", "SPEAKER_A", "Thank you, Chairman.")].
Proof.
  apply (@diarized_lines_parse_back [opening_turn]).
  repeat constructor; try reflexivity.
  exists "A"%char. split; reflexivity.
Defined.

(** X15. A turn built from words without a speaker carries the label
    [SPEAKER_?]; the parser gives no utterance for its line, whatever its
    times and text. *)
Theorem unknown_speaker_line_is_dropped (t : Diarize.SpeakerTurn) :
  Diarize.speaker t = Diarize.speaker_tag None ->
  (Diarize.start_ms t < 360000000)%Z ->
  (Diarize.end_ms t < 360000000)%Z ->
  parse_utterances [Diarize.format_turn t] = [].
Proof.
  intros Hspk Hs He.
  pose proof (format_ms_hms Hs) as H1. pose proof (format_ms_hms He) as H2.
  unfold parse_utterances, Diarize.format_turn. simpl parse_from.
  rewrite Hspk. unfold Diarize.speaker_tag.
  set (F1 := Diarize._format_ms (Diarize.start_ms t)) in *.
  set (F2 := Diarize._format_ms (Diarize.end_ms t)) in *.
  change ("[" ++ F1 ++ " - " ++ F2 ++ "] " ++ "SPEAKER_?" ++ ": "
          ++ Diarize.text t)%string
    with ("[" ++ F1 ++ " - " ++ F2 ++ "] SPEAKER_"
          ++ String "?" (": " ++ Diarize.text t))%string.
  destruct (re_match SPEAKER_LINE_RE _) as [m|] eqn:Hm; [|reflexivity].
  apply bracketed_line_captures in Hm; try assumption.
  destruct Hm as (c & w4 & body & eol & E & Hc & _).
  injection E as <- _. discriminate Hc.
Qed.

Lemma unknown_speaker_line_is_dropped_witness :
  parse_utterances
    [Diarize.format_turn
       {| Diarize.speaker := "SPEAKER_?"; Diarize.start_ms := 0;
          Diarize.end_ms := 900; Diarize.text := "Order." |}] = [].
Proof.
  apply unknown_speaker_line_is_dropped; [reflexivity | reflexivity | reflexivity].
Defined.

(** ** Turns built from words *)

(** A list of labels with every run of equal labels made one. *)
Fixpoint compress (l : list string) : list string :=
  match l with
  | [] => []
  | a :: t =>
      match t with
      | [] => [a]
      | b :: _ => if (a =? b)%string then compress t else a :: compress t
      end
  end.

(** No two neighbours are equal. *)
Fixpoint no_repeat (l : list string) : Prop :=
  match l with
  | [] => True
  | a :: t =>
      match t with
      | [] => True
      | b :: _ => a <> b /\ no_repeat t
      end
  end.

Lemma compress_head a t :
  exists r, compress (a :: t) = a :: r.
Proof.
  revert a. induction t as [|b t IH]; intros a; simpl; [now exists []|].
  destruct (String.eqb_spec a b) as [->|Hne].
  - apply IH.
  - eexists. reflexivity.
Qed.

Lemma compress_no_repeat l : no_repeat (compress l).
Proof.
  induction l as [|a t IH]; simpl; [exact I|].
  destruct t as [|b t]; [exact I|].
  destruct (String.eqb_spec a b) as [->|Hne]; [exact IH|].
  destruct (compress_head b t) as [r Hr]. rewrite Hr in *.
  simpl. split; assumption.
Qed.

Lemma compress_length l : List.length (compress l) <= List.length l.
Proof.
  induction l as [|a t IH]; simpl; [lia|].
  destruct t as [|b t]; [simpl; lia|].
  destruct (a =? b)%string; simpl in *; lia.
Qed.

Definition word_tag (w : Diarize.Word) : string :=
  Diarize.speaker_tag (Diarize.w_speaker w).

(** The loop, from a state in which a run of the speaker [cur] is open. *)
Lemma words_step_same st cur w :
  Diarize.current_speaker st = Some cur -> word_tag w = cur ->
  Diarize.current_speaker (Diarize.words_step st w) = Some cur
  /\ Diarize.turns (Diarize.words_step st w) = Diarize.turns st.
Proof.
  intros Hcur E. unfold Diarize.words_step. rewrite Hcur.
  fold (word_tag w). rewrite E, String.eqb_refl. split; reflexivity.
Qed.

Lemma words_step_other st cur w :
  Diarize.current_speaker st = Some cur -> word_tag w <> cur ->
  Diarize.current_speaker (Diarize.words_step st w) = Some (word_tag w)
  /\ map Diarize.speaker (Diarize.turns (Diarize.words_step st w))
     = map Diarize.speaker (Diarize.turns st) ++ [cur].
Proof.
  intros Hcur Hne. unfold Diarize.words_step. rewrite Hcur.
  fold (word_tag w). apply String.eqb_neq in Hne. rewrite Hne.
  split; [reflexivity|]. simpl. now rewrite map_app.
Qed.

(** The loop, from a state in which a run of the speaker [cur] is open. *)
Lemma words_loop_speakers ws : forall st cur,
  Diarize.current_speaker st = Some cur ->
  exists cur',
    Diarize.current_speaker (fold_left Diarize.words_step ws st) = Some cur'
    /\ map Diarize.speaker
         (Diarize.turns (fold_left Diarize.words_step ws st)) ++ [cur']
       = map Diarize.speaker (Diarize.turns st)
         ++ compress (cur :: map word_tag ws).
Proof.
  induction ws as [|w ws IH]; intros st cur Hcur.
  - now exists cur.
  - cbn [fold_left map compress].
    destruct (String.eqb_spec cur (word_tag w)) as [E|Hne].
    + destruct (@words_step_same st cur w Hcur (eq_sym E)) as [H1 H2].
      destruct (IH _ _ H1) as (cur' & H3 & H4).
      exists cur'. split; [exact H3|]. rewrite H4, H2, <- E. reflexivity.
    + destruct (@words_step_other st cur w Hcur (not_eq_sym Hne)) as [H1 H2].
      destruct (IH _ _ H1) as (cur' & H3 & H4).
      exists cur'. split; [exact H3|]. rewrite H4, H2, <- app_assoc.
      reflexivity.
Qed.

(** X16. The fallback that builds turns from words gives one turn per run of
    words of the same speaker: the speakers of the turns are the speakers of
    the words with every run made one, so no two consecutive turns have the
    same speaker, and there are no more turns than words. *)
Theorem turns_from_words_are_runs (ws : list Diarize.Word) :
  map Diarize.speaker (Diarize.turns_from_words ws)
  = compress (map word_tag ws)
  /\ no_repeat (map Diarize.speaker (Diarize.turns_from_words ws))
  /\ List.length (Diarize.turns_from_words ws) <= List.length ws.
Proof.
  assert (E : map Diarize.speaker (Diarize.turns_from_words ws)
              = compress (map word_tag ws)).
  { unfold Diarize.turns_from_words. destruct ws as [|w ws]; [reflexivity|].
    cbn [fold_left].
    match goal with
    | |- context [fold_left _ ws ?s] =>
        destruct (@words_loop_speakers ws s (word_tag w) eq_refl)
          as (cur' & H1 & H2)
    end.
    rewrite H1, map_app. cbn [map Diarize.speaker Diarize.close_turn].
    rewrite H2. reflexivity. }
  split; [exact E|]. split.
  - rewrite E. apply compress_no_repeat.
  - rewrite <- (length_map Diarize.speaker), E.
    rewrite <- (length_map word_tag ws). apply compress_length.
Qed.

(** ** Reading the head of a transcript *)

Definition is_newline (c : ascii) : bool := code c =? 10.

Lemma all_chars_rev p s : all_chars p (rev_string s) = all_chars p s.
Proof.
  induction s as [|c s IH]; [reflexivity|].
  rewrite rev_string_cons, all_chars_app, IH. simpl.
  rewrite andb_true_r. apply andb_comm.
Qed.

Lemma rev_string_empty s : rev_string s = "" -> s = "".
Proof.
  destruct s as [|c s]; [reflexivity|]. rewrite rev_string_cons.
  destruct (rev_string s); discriminate.
Qed.

Lemma newline_char c : (code c =? 10) = true -> c = "010"%char.
Proof.
  intros H. apply Nat.eqb_eq in H. unfold code in H.
  rewrite <- (ascii_nat_embedding c), H. reflexivity.
Qed.

Lemma rstrip_newline_keeps body :
  all_chars not_newline body = true -> rstrip_newline body = body.
Proof.
  unfold rstrip_newline.
  induction body as [|c t IH]; [reflexivity|]. simpl.
  intros H. apply andb_prop in H. destruct H as [Hc Ht].
  rewrite rstrip_chars_cons, (IH Ht).
  unfold not_newline in Hc. apply negb_true_iff in Hc. rewrite Hc.
  now destruct t.
Qed.

Lemma rstrip_newline_drops body :
  all_chars not_newline body = true ->
  rstrip_newline (body ++ nl)%string = body.
Proof.
  unfold rstrip_newline.
  induction body as [|c t IH]; [reflexivity|]. simpl.
  intros H. apply andb_prop in H. destruct H as [Hc Ht].
  rewrite rstrip_chars_cons, (IH Ht).
  unfold not_newline in Hc. apply negb_true_iff in Hc. rewrite Hc.
  now destruct t.
Qed.

(** A line as iteration over a file yields it: a text without a line feed,
    with a line feed after it except possibly at the end of the file. *)
Definition file_line (l : string) : Prop :=
  exists body, all_chars not_newline body = true
               /\ (l = body \/ l = (body ++ nl)%string).

Lemma file_lines_from_shape s : forall cur,
  all_chars not_newline cur = true ->
  Forall file_line (file_lines_from cur s).
Proof.
  induction s as [|c s IH]; intros cur Hcur; simpl.
  - destruct (cur =? "")%string; constructor; [|constructor].
    exists (rev_string cur). split; [now rewrite all_chars_rev | now left].
  - destruct (code c =? 10) eqn:Hc.
    + constructor; [|now apply IH].
      exists (rev_string cur). split; [now rewrite all_chars_rev|].
      right. rewrite rev_string_cons. now rewrite (newline_char _ Hc).
    + apply IH. simpl. unfold not_newline at 1. now rewrite Hc.
Qed.

Lemma file_lines_from_line l : forall cur rest,
  all_chars not_newline l = true ->
  file_lines_from cur (l ++ String "010"%char rest)%string
  = (rev_string cur ++ l ++ nl)%string :: file_lines_from "" rest.
Proof.
  induction l as [|c l IH]; intros cur rest; simpl.
  - intros _. now rewrite rev_string_cons.
  - intros H. apply andb_prop in H. destruct H as [Hc Hl].
    unfold not_newline in Hc. apply negb_true_iff in Hc. rewrite Hc.
    rewrite IH by assumption. rewrite rev_string_cons, append_assoc_string.
    reflexivity.
Qed.

Lemma file_lines_from_last l : forall cur,
  all_chars not_newline l = true ->
  file_lines_from cur l
  = match (rev_string cur ++ l)%string with
    | EmptyString => []
    | x => [x]
    end.
Proof.
  induction l as [|c l IH]; intros cur; simpl.
  - intros _. rewrite append_empty_r.
    destruct (String.eqb_spec cur "") as [->|Hne]; [reflexivity|].
    destruct (rev_string cur) eqn:E; [|reflexivity].
    apply rev_string_empty in E. contradiction.
  - intros H. apply andb_prop in H. destruct H as [Hc Hl].
    unfold not_newline in Hc. apply negb_true_iff in Hc. rewrite Hc.
    rewrite IH by assumption. rewrite rev_string_cons, append_assoc_string.
    reflexivity.
Qed.

(** A line that can be written and read back: not empty, on one line. *)
Definition plain_line (l : string) : Prop :=
  l <> "" /\ all_chars not_newline l = true.

Lemma file_lines_of_join lines :
  Forall plain_line lines ->
  map rstrip_newline (file_lines (join nl lines)) = lines.
Proof.
  unfold file_lines, join.
  induction 1 as [|l lines [Hne Hl] Hrest IH]; [reflexivity|].
  destruct lines as [|l2 lines].
  - simpl. rewrite file_lines_from_last by assumption. simpl.
    destruct l as [|c l]; [contradiction|].
    simpl. now rewrite rstrip_newline_keeps.
  - change (String.concat nl (l :: l2 :: lines))
      with (l ++ String "010"%char (String.concat nl (l2 :: lines)))%string.
    rewrite file_lines_from_line by assumption.
    cbn [map]. rewrite IH. simpl. now rewrite rstrip_newline_drops.
Qed.

Lemma in_firstn (A : Type) (x : A) n : forall l, In x (firstn n l) -> In x l.
Proof.
  induction n as [|n IH]; intros [|a l]; simpl; try tauto.
  intros [H|H]; [now left | right; now apply IH].
Qed.

(** Neither a carriage return nor, in [not_newline], a line feed: the two
    characters that end a line for a reader in text mode. *)
Definition not_return (c : ascii) : bool := negb (code c =? 13).

(** A line that is read back as it was written: not empty, and with no line
    ending inside. *)
Definition written_line (l : string) : Prop :=
  l <> "" /\ all_chars not_newline l = true /\ all_chars not_return l = true.

(** A text without a carriage return arrives as it was written. *)
Lemma universal_newlines_plain s :
  all_chars not_return s = true -> universal_newlines s = s.
Proof.
  unfold universal_newlines.
  induction s as [|c s IH]; simpl; [reflexivity|].
  intros H. apply andb_prop in H. destruct H as [Hc Hs].
  unfold not_return in Hc. apply negb_true_iff in Hc. rewrite Hc.
  rewrite andb_false_r. now rewrite IH.
Qed.

Lemma all_chars_join p sep lines :
  all_chars p sep = true ->
  Forall (fun l => all_chars p l = true) lines ->
  all_chars p (join sep lines) = true.
Proof.
  intros Hsep. unfold join.
  induction 1 as [|l lines Hl Hrest IH]; [reflexivity|].
  destruct lines as [|l2 lines]; [exact Hl|].
  change (String.concat sep (l :: l2 :: lines))
    with (l ++ sep ++ String.concat sep (l2 :: lines))%string.
  now rewrite !all_chars_app, Hl, Hsep, IH.
Qed.

(** A carriage return inside a written line ends a line for the reader. *)
Example carriage_return_splits_a_line :
  map rstrip_newline
    (file_lines (universal_newlines (String "a" (String "013" (String "b" "")))))
  = ["a"; "b"].
Proof. reflexivity. Qed.

(** X17. [read_transcript_head] returns at most [max_lines] lines, none for a
    count that is not positive, and no line it returns holds a line feed;
    from a file in which lines were written joined by line feeds, none of
    them empty or with a line feed or a carriage return inside, it returns
    the first [max_lines] of those lines, as they were written. *)
Theorem read_transcript_head_lines (env : Env) (path : string) (max_lines : Z)
  (text : string) :
  files env path = Some text ->
  exists lines,
    read_transcript_head env path max_lines = Ok lines
    /\ List.length lines <= Z.to_nat max_lines
    /\ Forall (fun l => all_chars not_newline l = true) lines
    /\ forall written,
         Forall written_line written ->
         text = universal_newlines (join nl written) ->
         lines = firstn (Z.to_nat max_lines) written.
Proof.
  intros Hf. unfold read_transcript_head, open_read. rewrite Hf. simpl.
  eexists. split; [reflexivity|]. split; [|split].
  - rewrite length_map, length_firstn. lia.
  - apply Forall_forall. intros l Hin. apply in_map_iff in Hin.
    destruct Hin as (raw & <- & Hin). apply in_firstn in Hin.
    pose proof (@file_lines_from_shape text "" eq_refl) as Hshape.
    rewrite Forall_forall in Hshape.
    destruct (Hshape raw Hin) as (body & Hbody & [-> | ->]).
    + now rewrite rstrip_newline_keeps.
    + now rewrite rstrip_newline_drops.
  - intros written Hw ->.
    rewrite universal_newlines_plain.
    + rewrite <- firstn_map. rewrite file_lines_of_join; [reflexivity|].
      eapply Forall_impl; [|exact Hw]. intros l (Hne & Hl & _). now split.
    + apply all_chars_join; [reflexivity|].
      eapply Forall_impl; [|exact Hw]. now intros l (_ & _ & Hl).
Qed.

(** Two lines written, the first one read. *)
Definition env_two_lines : Env :=
  {| py_repr := fun _ => "";
     json_loads := fun _ => None;
     json_dumps := fun _ => "";
     files := fun p =>
       if (p =? "transcript.txt")%string
       then Some (universal_newlines
                    (join nl ["[00:01:02 - 00:01:10] SPEAKER_A: Thank you.";
                              "(applause)"]))
       else None;
     responses_create := fun _ => Raise (ServiceError "connection refused") |}.

Lemma read_transcript_head_lines_witness :
  read_transcript_head env_two_lines "transcript.txt" 1
  = Ok ["[00:01:02 - 00:01:10] SPEAKER_A: Thank you."].
Proof.
  destruct (@read_transcript_head_lines env_two_lines "transcript.txt" 1 _
              eq_refl)
    as (lines & Hread & _ & _ & Hwritten).
  rewrite Hread. f_equal.
  apply (Hwritten ["[00:01:02 - 00:01:10] SPEAKER_A: Thank you."; "(applause)"]);
    [|reflexivity].
  repeat constructor; discriminate.
Defined.

(** ** From the diarizer's file to the utterances *)

Lemma digit_not_newline c : is_digit c = true -> not_newline c = true.
Proof.
  unfold is_digit, not_newline, between. intros H.
  apply andb_prop in H. destruct H as [H _]. apply Nat.leb_le in H.
  apply negb_true_iff, Nat.eqb_neq. lia.
Qed.

Lemma upper_not_newline c : is_upper c = true -> not_newline c = true.
Proof.
  unfold is_upper, not_newline, between. intros H.
  apply andb_prop in H. destruct H as [H _]. apply Nat.leb_le in H.
  apply negb_true_iff, Nat.eqb_neq. lia.
Qed.

Lemma hms_no_newline F : hms_text F -> all_chars not_newline F = true.
Proof.
  intros (h1 & h2 & m1 & m2 & s1 & s2 & -> & H1 & H2 & H3 & H4 & H5 & H6).
  simpl. now rewrite !digit_not_newline by assumption.
Qed.

Lemma format_turn_plain t : parseable_turn t -> plain_line (Diarize.format_turn t).
Proof.
  intros ((c & Hc & Hspk) & Hs & He & Htext).
  unfold Diarize.format_turn. rewrite Hspk. split; [discriminate|].
  change (all_chars not_newline
            (String "[" (Diarize._format_ms (Diarize.start_ms t) ++ " - "
                         ++ Diarize._format_ms (Diarize.end_ms t)
                         ++ "] SPEAKER_" ++ String c (": " ++ Diarize.text t)))
          = true).
  cbn [all_chars]. rewrite !all_chars_app.
  rewrite (hms_no_newline (format_ms_hms Hs)), (hms_no_newline (format_ms_hms He)).
  simpl. now rewrite (upper_not_newline _ Hc), Htext.
Qed.

Lemma Forall_firstn (A : Type) (P : A -> Prop) n : forall l,
  Forall P l -> Forall P (firstn n l).
Proof.
  induction n as [|n IH]; intros l H; [constructor|].
  destruct H; simpl; constructor; auto.
Qed.

Lemma digit_not_return c : is_digit c = true -> not_return c = true.
Proof.
  unfold is_digit, not_return, between. intros H.
  apply andb_prop in H. destruct H as [H _]. apply Nat.leb_le in H.
  apply negb_true_iff, Nat.eqb_neq. lia.
Qed.

Lemma upper_not_return c : is_upper c = true -> not_return c = true.
Proof.
  unfold is_upper, not_return, between. intros H.
  apply andb_prop in H. destruct H as [H _]. apply Nat.leb_le in H.
  apply negb_true_iff, Nat.eqb_neq. lia.
Qed.

Lemma hms_no_return F : hms_text F -> all_chars not_return F = true.
Proof.
  intros (h1 & h2 & m1 & m2 & s1 & s2 & -> & H1 & H2 & H3 & H4 & H5 & H6).
  simpl. now rewrite !digit_not_return by assumption.
Qed.

(** The line of a turn holds a carriage return only if its text does. *)
Lemma format_turn_no_return t :
  parseable_turn t -> all_chars not_return (Diarize.text t) = true ->
  all_chars not_return (Diarize.format_turn t) = true.
Proof.
  intros ((c & Hc & Hspk) & Hs & He & _) Htext.
  unfold Diarize.format_turn. rewrite Hspk.
  change (all_chars not_return
            (String "[" (Diarize._format_ms (Diarize.start_ms t) ++ " - "
                         ++ Diarize._format_ms (Diarize.end_ms t)
                         ++ "] SPEAKER_" ++ String c (": " ++ Diarize.text t)))
          = true).
  cbn [all_chars]. rewrite !all_chars_app.
  rewrite (hms_no_return (format_ms_hms Hs)), (hms_no_return (format_ms_hms He)).
  simpl. now rewrite (upper_not_return _ Hc), Htext.
Qed.

(** X18. A transcript file written by the diarization script is read back by
    the first two steps of the pipeline: when the turns have a one-letter
    speaker, times below a hundred hours and a text with neither a line feed
    nor a carriage return, [read_transcript_head] succeeds on the file in
    which the script wrote its text, and [parse_utterances] gives, for the
    first [max_lines] turns in order, the formatted times, the speaker and the
    stripped text. *)
Theorem diarized_file_is_read_back (env : Env) (path : string)
  (ts : list Diarize.SpeakerTurn) (max_lines : Z) :
  Forall parseable_turn ts ->
  Forall (fun t => all_chars not_return (Diarize.text t) = true) ts ->
  files env path = Some (universal_newlines (Diarize.transcript_text ts)) ->
  exists head,
    read_transcript_head env path max_lines = Ok head
    /\ map utterance_fields (parse_utterances head)
       = map turn_fields (firstn (Z.to_nat max_lines) ts).
Proof.
  intros Hts Hcr Hf. unfold read_transcript_head, open_read. rewrite Hf. simpl.
  eexists. split; [reflexivity|].
  rewrite universal_newlines_plain.
  - unfold Diarize.transcript_text. rewrite <- firstn_map.
    rewrite file_lines_of_join.
    + rewrite firstn_map. unfold parse_utterances. rewrite parse_from_fields.
      apply (Forall_firstn (Z.to_nat max_lines)) in Hts.
      induction Hts as [|t ts' Ht Hts' IH]; simpl; [reflexivity|].
      now rewrite (line_fields_of_turn Ht), IH.
    + apply Forall_forall. intros l Hin. apply in_map_iff in Hin.
      destruct Hin as (t & <- & Hin). apply format_turn_plain.
      rewrite Forall_forall in Hts. now apply Hts.
  - unfold Diarize.transcript_text. apply all_chars_join; [reflexivity|].
    apply Forall_forall. intros l Hin. apply in_map_iff in Hin.
    destruct Hin as (t & <- & Hin). rewrite Forall_forall in Hts, Hcr.
    apply format_turn_no_return; [now apply Hts | now apply Hcr].
Qed.

Definition closing_turn : Diarize.SpeakerTurn :=
  {| Diarize.speaker := "SPEAKER_B"; Diarize.start_ms := 71000;
     Diarize.end_ms := 80000; Diarize.text := " I yield back. " |}.

Definition env_diarized : Env :=
  {| py_repr := fun _ => "";
     json_loads := fun _ => None;
     json_dumps := fun _ => "";
     files := fun p =>
       if (p =? "transcript.txt")%string
       then Some (universal_newlines
                    (Diarize.transcript_text [opening_turn; closing_turn]))
       else None;
     responses_create := fun _ => Raise (ServiceError "connection refused") |}.

Lemma diarized_file_is_read_back_witness :
  exists head,
    read_transcript_head env_diarized "transcript.txt" 300 = Ok head
    /\ map utterance_fields (parse_utterances head)
       = [ ("00:01:02", "00:01:10", "SPEAKER_A", "Thank you, Chairman.");
           ("00:01:11", "00:01:20", "SPEAKER_B", "I yield back.") ].
Proof.
  apply (@diarized_file_is_read_back env_diarized "transcript.txt"
           [opening_turn; closing_turn] 300); [| |reflexivity].
  - repeat constructor; try reflexivity;
      [exists "A"%char | exists "B"%char]; split; reflexivity.
  - repeat constructor.
Defined.

(** A turn whose text holds a carriage return is written on one line and
    read back as two: its utterance loses the text after the carriage
    return. *)
Example turn_with_carriage_return_is_cut :
  let t := {| Diarize.speaker := "SPEAKER_A"; Diarize.start_ms := 0;
              Diarize.end_ms := 1000;
              Diarize.text := String "a" (String "013" (String "b" "")) |} in
  map utterance_fields
    (parse_utterances
       (map rstrip_newline
          (file_lines (universal_newlines (Diarize.transcript_text [t])))))
  = [("00:00:00", "00:00:01", "SPEAKER_A", "a")].
Proof. reflexivity. Qed.

(* ================================================================== *)
(** * Part VI. Rewriting the transcript                                 *)
(* ================================================================== *)

(** A model of [rewrite_transcript_entities.py]. A set of names is used
    through membership only and is a list here; the text written to the
    output file is what [rewrite_transcript] returns. *)

Module Rewrite.

Definition name_set : Type := list string.

(** [name in names] *)
Definition mem (name : string) (names : name_set) : bool :=
  existsb (String.eqb name) names.

(** [isinstance(name, str) and name.strip()], giving the stripped name. *)
Definition usable_name (v : value) : option string :=
  match v with
  | VStr name => if (strip name =? "")%string then None else Some (strip name)
  | _ => None
  end.

Definition load_speaker_mapping (env : Env) (json_path : string)
  : result (list (string * string)) :=
  text <- open_read env json_path ;;
  match json_loads env text with
  | None => Raise JSONDecodeError
  | Some data =>
      let mapping_obj :=
        match data with
        | VDict d =>
            match lookup "mapping" d with Some v => v | None => VDict [] end
        | _ => VDict []
        end in
      match mapping_obj with
      | VDict items =>
          Ok (fold_left
                (fun mapping '(label, info) =>
                   match info with
                   | VDict i =>
                       match usable_name (get "name" i) with
                       | Some name => assign label name mapping
                       | None => mapping
                       end
                   | _ => mapping
                   end)
                items [])
      | _ => Raise AttributeError
      end
  end.

Definition determine_role (name : string) (witnesses committee_members : name_set)
  : string :=
  if mem name witnesses then "Witness"
  else if mem name committee_members then "Committee"
  else "Other".

(** The function given to [pattern.sub]. *)
Definition replace_label (label_to_name : list (string * string))
  (witnesses committee_members : name_set) (annotate_role : bool)
  (label : string) : string :=
  match lookup label label_to_name with
  | None => label
  | Some name =>
      if (name =? "")%string || (lower name =? "unknown")%string then label
      else if annotate_role then
        let role := determine_role name witnesses committee_members in
        if (role =? "Witness")%string || (role =? "Committee")%string
        then (name ++ " (" ++ role ++ ")")%string
        else name
      else name
  end.

(** The class [\w]. *)
Definition is_word (c : ascii) : bool :=
  is_digit c || is_upper c || is_lower c || (code c =? 95).

Fixpoint take_while (p : ascii -> bool) (s : string) : string :=
  match s with
  | EmptyString => EmptyString
  | String c s' => if p c then String c (take_while p s') else EmptyString
  end.

Fixpoint strip_prefix (lit s : string) : option string :=
  match lit with
  | EmptyString => Some s
  | String a lit' =>
      match s with
      | String c s' => if Ascii.eqb a c then strip_prefix lit' s' else None
      | EmptyString => None
      end
  end.

(** A match of [SPEAKER_[A-Z]+\b] at the head of [s]: the letters are the
    longest run, since a shorter one ends between two letters, where [\b]
    does not hold; the match and the text after it. *)
Definition label_at (s : string) : option (string * string) :=
  match strip_prefix "SPEAKER_" s with
  | None => None
  | Some after =>
      let run := take_while is_upper after in
      let rest := drop_while is_upper after in
      if (run =? "")%string then None
      else
        match rest with
        | EmptyString => Some (("SPEAKER_" ++ run)%string, rest)
        | String c _ =>
            if is_word c then None else Some (("SPEAKER_" ++ run)%string, rest)
        end
  end.

(** [pattern.sub(repl, s)] for the pattern [\bSPEAKER_[A-Z]+\b], scanning
    from the left; [prev_word] says that the character before [s] is a word
    character, so that [\b] does not hold in front of an [S]. *)
Fixpoint sub_from (fuel : nat) (repl : string -> string) (prev_word : bool)
  (s : string) : string :=
  match fuel with
  | 0 => s
  | S fuel' =>
      match s with
      | EmptyString => EmptyString
      | String c s' =>
          match (if prev_word then None else label_at s) with
          | Some (label, rest) =>
              (repl label ++ sub_from fuel' repl true rest)%string
          | None => String c (sub_from fuel' repl (is_word c) s')
          end
      end
  end.

(** Every step reads one character at least, so the length of the text is
    fuel enough. *)
Definition sub_labels (repl : string -> string) (s : string) : string :=
  sub_from (String.length s) repl false s.

(** What the loop writes: each line of the transcript with its labels
    replaced. *)
Definition rewrite_transcript (env : Env) (transcript_path : string)
  (label_to_name : list (string * string))
  (witnesses committee_members : name_set) (annotate_role : bool)
  : result string :=
  text <- open_read env transcript_path ;;
  Ok (String.concat ""
        (map (sub_labels
                (replace_label label_to_name witnesses committee_members
                   annotate_role))
             (file_lines text))).

End Rewrite.

Example rewrite_example_line :
  Rewrite.sub_labels
    (Rewrite.replace_label [("SPEAKER_A", "Jane Doe"); ("SPEAKER_B", "Unknown")]
       ["Jane Doe"] [] true)
    "[00:01:02 - 00:01:10] SPEAKER_A: I thank SPEAKER_B and xSPEAKER_A, SPEAKER_Ab."
  = "[00:01:02 - 00:01:10] Jane Doe (Witness): I thank SPEAKER_B and xSPEAKER_A, SPEAKER_Ab.".
Proof. reflexivity. Qed.

(** ** Labels that are not replaced *)

Lemma strip_prefix_some lit : forall s after,
  Rewrite.strip_prefix lit s = Some after -> s = (lit ++ after)%string.
Proof.
  induction lit as [|a lit IH]; intros s after; simpl.
  - now intros [= ->].
  - destruct s as [|c s]; [discriminate|].
    destruct (Ascii.eqb_spec a c) as [->|]; [|discriminate].
    intros H. now rewrite (IH _ _ H).
Qed.

Lemma take_drop_while p s :
  (Rewrite.take_while p s ++ drop_while p s)%string = s.
Proof.
  induction s as [|c s IH]; simpl; [reflexivity|].
  destruct (p c); simpl; [now rewrite IH | reflexivity].
Qed.

Lemma label_at_some s label rest :
  Rewrite.label_at s = Some (label, rest) ->
  s = (label ++ rest)%string /\ String.length rest < String.length s.
Proof.
  unfold Rewrite.label_at.
  destruct (Rewrite.strip_prefix "SPEAKER_" s) as [after|] eqn:Hp; [|discriminate].
  apply strip_prefix_some in Hp.
  destruct (Rewrite.take_while is_upper after =? "")%string; [discriminate|].
  assert (H : forall l r,
             (l, r) = (("SPEAKER_" ++ Rewrite.take_while is_upper after)%string,
                       drop_while is_upper after) ->
             s = (l ++ r)%string /\ String.length r < String.length s).
  { intros l r [= -> ->].
    pose proof (take_drop_while is_upper after) as E. split.
    - rewrite Hp. rewrite <- E at 1. reflexivity.
    - rewrite Hp. apply (f_equal String.length) in E.
      rewrite length_append in E. rewrite length_append. simpl. lia. }
  destruct (drop_while is_upper after) as [|c r] eqn:Hd.
  - intros [= <- <-]. now apply H.
  - destruct (Rewrite.is_word c); [discriminate|].
    intros [= <- <-]. now apply H.
Qed.

Lemma sub_from_unchanged repl fuel : forall prev s,
  (forall label, repl label = label) ->
  Rewrite.sub_from fuel repl prev s = s.
Proof.
  induction fuel as [|fuel IH]; intros prev s Hid; simpl; [reflexivity|].
  destruct s as [|c s]; [reflexivity|].
  destruct (if prev then None else Rewrite.label_at (String c s))
    as [[label rest]|] eqn:Hm.
  - destruct prev; [discriminate|].
    apply label_at_some in Hm. destruct Hm as [-> _].
    now rewrite Hid, IH.
  - now rewrite IH.
Qed.

Lemma concat_empty_cons x l :
  String.concat "" (x :: l) = (x ++ String.concat "" l)%string.
Proof.
  destruct l; simpl; [now rewrite append_empty_r | reflexivity].
Qed.

Lemma concat_file_lines_from s : forall cur,
  String.concat "" (file_lines_from cur s) = (rev_string cur ++ s)%string.
Proof.
  induction s as [|c s IH]; intros cur; simpl file_lines_from.
  - rewrite append_empty_r.
    destruct (String.eqb_spec cur "") as [->|Hne]; reflexivity.
  - destruct (code c =? 10).
    + rewrite concat_empty_cons, IH, rev_string_cons, append_assoc_string.
      reflexivity.
    + rewrite IH, rev_string_cons, append_assoc_string. reflexivity.
Qed.

(** A mapping that gives no name to put in: every name is empty or is
    [unknown] in some mix of cases. *)
Definition names_nothing (label_to_name : list (string * string)) : Prop :=
  forall label name,
    lookup label label_to_name = Some name ->
    name = "" \/ lower name = "unknown".

(** X19. When the mapping names no speaker, that is when it is empty or every
    name in it is empty or [Unknown] in any mix of cases,
    [rewrite_transcript] writes the transcript as it read it. *)
Theorem rewrite_without_names_is_identity (env : Env)
  (transcript_path text : string) (label_to_name : list (string * string))
  (witnesses committee_members : Rewrite.name_set) (annotate_role : bool) :
  files env transcript_path = Some text ->
  names_nothing label_to_name ->
  Rewrite.rewrite_transcript env transcript_path label_to_name witnesses
    committee_members annotate_role = Ok text.
Proof.
  intros Hf Hnames. unfold Rewrite.rewrite_transcript, open_read.
  rewrite Hf. simpl. f_equal.
  assert (Hid : forall label,
             Rewrite.replace_label label_to_name witnesses committee_members
               annotate_role label = label).
  { intros label. unfold Rewrite.replace_label.
    destruct (lookup label label_to_name) as [name|] eqn:Hl; [|reflexivity].
    destruct (Hnames _ _ Hl) as [->|E]; [reflexivity|].
    rewrite E. simpl. now rewrite orb_true_r. }
  rewrite (map_ext _ (fun s => s)).
  - rewrite map_id. apply (concat_file_lines_from text "").
  - intros s. unfold Rewrite.sub_labels. now apply sub_from_unchanged.
Qed.

Lemma rewrite_without_names_is_identity_witness :
  Rewrite.rewrite_transcript env_diarized "transcript.txt"
    [("SPEAKER_A", "UNKNOWN"); ("SPEAKER_B", "")] ["Jane Doe"] [] true
  = Ok (Diarize.transcript_text [opening_turn; closing_turn]).
Proof.
  apply rewrite_without_names_is_identity; [reflexivity|].
  intros label name. simpl.
  destruct (label =? "SPEAKER_A")%string; [intros [= <-]; now right|].
  destruct (label =? "SPEAKER_B")%string; [intros [= <-]; now left|].
  discriminate.
Defined.


(** ** The mapping file *)

Lemma usable_name_some v name :
  Rewrite.usable_name v = Some name ->
  exists raw, v = VStr raw /\ name = strip raw /\ name <> "".
Proof.
  destruct v as [| | | |raw| |]; simpl; try discriminate.
  destruct (String.eqb_spec (strip raw) "") as [|Hne]; [discriminate|].
  intros [= <-]. now exists raw.
Qed.

(** An entry of the [mapping] object that names the label. *)
Definition names_label (items : dict) (label name : string) : Prop :=
  exists info raw,
    In (label, VDict info) items /\ get "name" info = VStr raw
    /\ name = strip raw /\ name <> "".

Lemma mapping_fold_names items0 items : forall acc,
  (forall x, In x items -> In x items0) ->
  (forall l n, lookup l acc = Some n -> names_label items0 l n) ->
  forall l n,
    lookup l
      (fold_left
         (fun mapping '(label, info) =>
            match info with
            | VDict i =>
                match Rewrite.usable_name (get "name" i) with
                | Some name => assign label name mapping
                | None => mapping
                end
            | _ => mapping
            end) items acc) = Some n ->
    names_label items0 l n.
Proof.
  induction items as [|[label info] items IH]; intros acc Hsub Hacc l n;
    simpl; [apply Hacc|].
  apply IH; [intros x Hx; apply Hsub; now right|].
  intros l' n'. destruct info as [| | | | | |i]; try apply Hacc.
  destruct (Rewrite.usable_name (get "name" i)) as [name|] eqn:Hu;
    [|apply Hacc].
  destruct (String.eqb_spec l' label) as [->|Hne].
  - rewrite lookup_assign_same. intros [= <-].
    apply usable_name_some in Hu. destruct Hu as (raw & Hraw & Hname & Hne).
    exists i, raw. split; [apply Hsub; now left|]. auto.
  - rewrite lookup_assign_other by assumption. apply Hacc.
Qed.

(** X20. Every name [load_speaker_mapping] returns for a label is the stripped
    name of an entry that the [mapping] object of the file has for that
    label; it is not empty and has no white space at either end. *)
Theorem speaker_mapping_names_are_stripped (env : Env) (json_path : string)
  (mapping : list (string * string)) (label name : string) :
  Rewrite.load_speaker_mapping env json_path = Ok mapping ->
  lookup label mapping = Some name ->
  name <> "" /\ strip name = name
  /\ exists text d items,
       files env json_path = Some text
       /\ json_loads env text = Some (VDict d)
       /\ lookup "mapping" d = Some (VDict items)
       /\ names_label items label name.
Proof.
  unfold Rewrite.load_speaker_mapping, open_read.
  destruct (files env json_path) as [txt|]; simpl; [|discriminate].
  destruct (json_loads env txt) as [data|] eqn:Hj; [|discriminate].
  assert (Hempty : Ok (fold_left
             (fun mapping '(label, info) =>
                match info with
                | VDict i =>
                    match Rewrite.usable_name (get "name" i) with
                    | Some name => assign label name mapping
                    | None => mapping
                    end
                | _ => mapping
                end) (@nil (string * value)) []) = Ok mapping ->
           lookup label mapping = Some name -> False).
  { simpl. intros [= <-]. discriminate. }
  destruct data as [| | | | | |d]; try (intros H1 H2; now elim (Hempty H1 H2)).
  destruct (lookup "mapping" d) as [v|] eqn:Hm;
    [|intros H1 H2; now elim (Hempty H1 H2)].
  destruct v as [| | | | | |items]; try discriminate.
  intros [= <-] Hl.
  assert (Hn : names_label items label name).
  { apply (@mapping_fold_names items items [] (fun x H => H)); [|exact Hl].
    intros l n H. discriminate H. }
  destruct Hn as (info & raw & Hin & Hraw & Hname & Hne).
  split; [assumption|]. split; [rewrite Hname; apply strip_idempotent|].
  exists txt. exists d. exists items.
  split; [reflexivity|]. split; [exact Hj|]. split; [exact Hm|].
  now exists info, raw.
Qed.

Definition env_mapping : Env :=
  {| py_repr := fun _ => "";
     json_loads := fun s =>
       if (s =? mapping_text)%string
       then Some (VDict [("mapping",
                          VDict [("SPEAKER_A", VDict [("name", VStr " Jane Doe ")]);
                                 ("SPEAKER_B", VDict [("name", VStr "  ")]);
                                 ("SPEAKER_C", VStr "Rep. Smith")])])
       else None;
     json_dumps := fun _ => "";
     files := fun p =>
       if (p =? "speaker_mapping.json")%string then Some mapping_text else None;
     responses_create := fun _ => Raise (ServiceError "connection refused") |}.

Lemma speaker_mapping_names_are_stripped_witness :
  Rewrite.load_speaker_mapping env_mapping "speaker_mapping.json"
  = Ok [("SPEAKER_A", "Jane Doe")]
  /\ strip "Jane Doe" = "Jane Doe".
Proof.
  split; [reflexivity|].
  exact (proj1 (proj2 (@speaker_mapping_names_are_stripped env_mapping
                         "speaker_mapping.json" [("SPEAKER_A", "Jane Doe")]
                         "SPEAKER_A" "Jane Doe" eq_refl eq_refl))).
Defined.

(** ** Rewriting a line of the diarizer *)

Lemma sub_from_enough repl f1 : forall f2 prev s,
  String.length s <= f1 -> String.length s <= f2 ->
  Rewrite.sub_from f1 repl prev s = Rewrite.sub_from f2 repl prev s.
Proof.
  induction f1 as [|f1 IH]; intros f2 prev s H1 H2.
  - destruct s; [|simpl in H1; lia]. now destruct f2.
  - destruct f2 as [|f2]; [destruct s; [reflexivity | simpl in H2; lia]|].
    destruct s as [|c s]; [reflexivity|]. simpl in H1, H2. simpl.
    destruct (if prev then None else Rewrite.label_at (String c s))
      as [[label rest]|] eqn:Hm.
    + destruct prev; [discriminate|].
      apply label_at_some in Hm. destruct Hm as [_ Hlt]. simpl in Hlt.
      f_equal. apply IH; lia.
    + f_equal. apply IH; lia.
Qed.

Definition not_S (c : ascii) : bool := negb (Ascii.eqb "S" c).

(** Whether the last character read is a word character. *)
Fixpoint word_after (prev : bool) (pre : string) : bool :=
  match pre with
  | EmptyString => prev
  | String c p => word_after (Rewrite.is_word c) p
  end.

Lemma word_after_app a : forall prev b,
  word_after prev (a ++ b)%string = word_after (word_after prev a) b.
Proof.
  induction a as [|c a IH]; intros prev b; simpl; [reflexivity | apply IH].
Qed.

(** Text without an [S] holds no label and is copied. *)
Lemma sub_from_prefix repl pre : forall fuel prev s,
  all_chars not_S pre = true ->
  Rewrite.sub_from (String.length pre + fuel) repl prev (pre ++ s)%string
  = (pre ++ Rewrite.sub_from fuel repl (word_after prev pre) s)%string.
Proof.
  induction pre as [|c pre IH]; intros fuel prev s; simpl; [reflexivity|].
  intros H. apply andb_prop in H. destruct H as [Hc Hpre].
  assert (Hnone : Rewrite.label_at (String c (pre ++ s)) = None).
  { unfold Rewrite.label_at. unfold not_S in Hc.
    apply negb_true_iff in Hc.
    change (Rewrite.strip_prefix "SPEAKER_" (String c (pre ++ s)))
      with (if Ascii.eqb "S" c
            then Rewrite.strip_prefix "PEAKER_" (pre ++ s) else None).
    now rewrite Hc. }
  rewrite Hnone. destruct prev; now rewrite IH.
Qed.

Lemma digit_not_S c : is_digit c = true -> not_S c = true.
Proof.
  unfold not_S. destruct (Ascii.eqb_spec "S"%char c) as [<-|]; [|reflexivity].
  discriminate.
Qed.

Lemma hms_no_S F : hms_text F -> all_chars not_S F = true.
Proof.
  intros (h1 & h2 & m1 & m2 & s1 & s2 & -> & H1 & H2 & H3 & H4 & H5 & H6).
  simpl. now rewrite !digit_not_S by assumption.
Qed.

Lemma sub_from_label repl fuel c r :
  is_upper c = true ->
  Rewrite.sub_from (S fuel) repl false
    ("SPEAKER_" ++ String c (String ":" r))%string
  = (repl ("SPEAKER_" ++ String c "")%string
     ++ Rewrite.sub_from fuel repl true (String ":" r))%string.
Proof.
  intros Hc. simpl. unfold Rewrite.label_at. simpl. rewrite Hc. reflexivity.
Qed.

(** X21. In a line written by the diarization script for a turn with a
    one-letter speaker and times below a hundred hours, the rewrite leaves the
    two times as they are, puts what [replace_label] gives for the speaker in
    the place of the label, and rewrites the text of the turn as it would on
    its own. *)
Theorem rewrite_of_diarized_line (repl : string -> string)
  (t : Diarize.SpeakerTurn) (c : ascii) :
  is_upper c = true ->
  Diarize.speaker t = ("SPEAKER_" ++ String c "")%string ->
  (Diarize.start_ms t < 360000000)%Z ->
  (Diarize.end_ms t < 360000000)%Z ->
  Rewrite.sub_labels repl (Diarize.format_turn t)
  = ("[" ++ Diarize._format_ms (Diarize.start_ms t) ++ " - "
     ++ Diarize._format_ms (Diarize.end_ms t) ++ "] "
     ++ repl (Diarize.speaker t) ++ ": "
     ++ Rewrite.sub_labels repl (Diarize.text t))%string.
Proof.
  intros Hc Hspk Hs He.
  pose proof (format_ms_hms Hs) as H1. pose proof (format_ms_hms He) as H2.
  unfold Rewrite.sub_labels, Diarize.format_turn. rewrite Hspk.
  set (F1 := Diarize._format_ms (Diarize.start_ms t)) in *.
  set (F2 := Diarize._format_ms (Diarize.end_ms t)) in *.
  set (txt := Diarize.text t).
  clearbody F1 F2 txt.
  set (pre := ("[" ++ F1 ++ " - " ++ F2 ++ "] ")%string).
  set (rest := ("SPEAKER_" ++ String c (String ":" (String " " txt)))%string).
  assert (E : ("[" ++ F1 ++ " - " ++ F2 ++ "] " ++ ("SPEAKER_" ++ String c "")
               ++ ": " ++ txt)%string = (pre ++ rest)%string).
  { unfold pre, rest. simpl. rewrite !append_assoc_string. simpl.
    rewrite !append_assoc_string. reflexivity. }
  rewrite E, length_append.
  assert (Hpre : all_chars not_S pre = true).
  { unfold pre.
    repeat first [rewrite all_chars_app | progress cbn [append all_chars]].
    rewrite (hms_no_S H1), (hms_no_S H2). reflexivity. }
  assert (Hlast : word_after false pre = false).
  { unfold pre.
    repeat first [rewrite word_after_app | progress cbn [append word_after]].
    reflexivity. }
  rewrite sub_from_prefix by assumption. rewrite Hlast.
  unfold rest.
  change (String.length ("SPEAKER_" ++ String c (String ":" (String " " txt))))
    with (S (10 + String.length txt)).
  rewrite sub_from_label by assumption.
  change (Rewrite.sub_from (10 + String.length txt) repl true
            (String ":" (String " " txt)))
    with (String ":" (String " "
            (Rewrite.sub_from (8 + String.length txt) repl false txt))).
  rewrite (@sub_from_enough repl (8 + String.length txt) (String.length txt))
    by lia.
  unfold pre. rewrite !append_assoc_string. simpl.
  rewrite ?append_assoc_string. reflexivity.
Qed.

Lemma rewrite_of_diarized_line_witness :
  Rewrite.sub_labels
    (Rewrite.replace_label [("SPEAKER_A", "Jane Doe")] ["Jane Doe"] [] true)
    (Diarize.format_turn opening_turn)
  = "[00:01:02 - 00:01:10] Jane Doe (Witness): Thank you, Chairman.".
Proof.
  rewrite (@rewrite_of_diarized_line _ opening_turn "A"%char);
    reflexivity.
Defined.

(* ================================================================== *)
(** * Part VII. Committee codes                                         *)
(* ================================================================== *)

(** [normalize_committee_code] of [fetch_committee_members.py]. *)

Module Fetch.

Definition is_alpha (c : ascii) : bool := is_upper c || is_lower c.

(** [s.isalpha()] *)
Definition isalpha (s : string) : bool :=
  negb (s =? "")%string && all_chars is_alpha s.

Definition normalize_committee_code (committee_id chamber : string) : string :=
  let code := lower (strip committee_id) in
  if (String.length code =? 4) && isalpha code then (code ++ "00")%string
  else code.

End Fetch.

Lemma lower_char_space c : is_space (lower_char c) = is_space c.
Proof. destruct c as [[] [] [] [] [] [] [] []]; reflexivity. Qed.

Lemma lower_char_idempotent c : lower_char (lower_char c) = lower_char c.
Proof. destruct c as [[] [] [] [] [] [] [] []]; reflexivity. Qed.

Lemma alpha_not_space c : Fetch.is_alpha c = true -> is_space c = false.
Proof.
  destruct c as [[] [] [] [] [] [] [] []]; vm_compute; intros H;
    first [reflexivity | discriminate H].
Qed.

Lemma map_string_app f a b :
  map_string f (a ++ b)%string = (map_string f a ++ map_string f b)%string.
Proof. induction a as [|x a IH]; simpl; [reflexivity | now rewrite IH]. Qed.

Lemma length_map_string f s :
  String.length (map_string f s) = String.length s.
Proof. induction s as [|c s IH]; simpl; [reflexivity | now rewrite IH]. Qed.

Lemma map_string_rev f s :
  rev_string (map_string f s) = map_string f (rev_string s).
Proof.
  induction s as [|c s IH]; [reflexivity|].
  simpl map_string. rewrite !rev_string_cons, map_string_app, IH. reflexivity.
Qed.

Lemma map_string_drop_while f p s :
  (forall c, p (f c) = p c) ->
  drop_while p (map_string f s) = map_string f (drop_while p s).
Proof.
  intros H. induction s as [|c s IH]; simpl; [reflexivity|].
  rewrite H. destruct (p c); [exact IH | reflexivity].
Qed.

Lemma strip_lower s : strip (lower s) = lower (strip s).
Proof.
  unfold strip, lstrip_chars, rstrip_chars, lower.
  rewrite (map_string_drop_while _ _ _ lower_char_space).
  rewrite map_string_rev.
  rewrite (map_string_drop_while _ _ _ lower_char_space).
  now rewrite map_string_rev.
Qed.

Lemma lower_idempotent s : lower (lower s) = lower s.
Proof.
  unfold lower. induction s as [|c s IH]; simpl; [reflexivity|].
  now rewrite lower_char_idempotent, IH.
Qed.

Lemma rstrip_chars_keeps p s :
  all_chars (fun c => negb (p c)) s = true -> rstrip_chars p s = s.
Proof.
  induction s as [|c t IH]; [reflexivity|]. simpl.
  intros H. apply andb_prop in H. destruct H as [Hc Ht].
  rewrite rstrip_chars_cons, (IH Ht).
  apply negb_true_iff in Hc. rewrite Hc. now destruct t.
Qed.

Lemma strip_keeps s :
  all_chars (fun c => negb (is_space c)) s = true -> strip s = s.
Proof.
  intros H. unfold strip, lstrip_chars.
  assert (E : drop_while is_space s = s).
  { destruct s as [|c s]; [reflexivity|]. simpl in *.
    apply andb_prop in H. destruct H as [Hc _].
    apply negb_true_iff in Hc. now rewrite Hc. }
  rewrite E. now apply rstrip_chars_keeps.
Qed.

(** X22. [normalize_committee_code] is idempotent: a code that is already
    normalised is returned as it is. A code of four letters comes out in
    lower case with [00] after it. *)
Theorem normalize_committee_code_idempotent (committee_id chamber : string) :
  Fetch.normalize_committee_code
    (Fetch.normalize_committee_code committee_id chamber) chamber
  = Fetch.normalize_committee_code committee_id chamber
  /\ (String.length (strip committee_id) = 4 ->
      Fetch.isalpha (lower (strip committee_id)) = true ->
      Fetch.normalize_committee_code committee_id chamber
      = (lower (strip committee_id) ++ "00")%string).
Proof.
  unfold Fetch.normalize_committee_code.
  set (code := lower (strip committee_id)).
  assert (Hcode : lower (strip code) = code).
  { unfold code. now rewrite strip_lower, strip_idempotent, lower_idempotent. }
  assert (Hlen : String.length code = String.length (strip committee_id)).
  { unfold code, lower. apply length_map_string. }
  split.
  - destruct ((String.length code =? 4) && Fetch.isalpha code) eqn:Htest.
    + apply andb_prop in Htest. destruct Htest as [Hl Ha].
      apply Nat.eqb_eq in Hl.
      assert (Hns : all_chars (fun c => negb (is_space c))
                      (code ++ "00")%string = true).
      { rewrite all_chars_app. unfold Fetch.isalpha in Ha.
        apply andb_prop in Ha. destruct Ha as [_ Ha].
        rewrite andb_true_r.
        clear - Ha. induction code as [|c s IH]; [reflexivity|].
        simpl in *. apply andb_prop in Ha. destruct Ha as [Hc Hs].
        now rewrite (alpha_not_space _ Hc), IH. }
      rewrite (strip_keeps _ Hns).
      assert (Hlow : lower (code ++ "00")%string = (code ++ "00")%string).
      { unfold lower. rewrite map_string_app. fold (lower code).
        unfold code at 1. now rewrite lower_idempotent. }
      rewrite Hlow, length_append, Hl. reflexivity.
    + now rewrite Hcode, Htest.
  - intros H4 Ha. fold code in Ha. rewrite Hlen, H4, Ha. reflexivity.
Qed.

Lemma normalize_committee_code_idempotent_witness :
  Fetch.normalize_committee_code " HSAG " "house" = "hsag00".
Proof.
  apply (proj2 (normalize_committee_code_idempotent " HSAG " "house"));
    reflexivity.
Defined.
